(** * WslBuild: the [wsl_exec] build target of [plugin.py]

    A shallow embedding of the three pure helpers of [WslExecCommand]
    ([wsl_path], [wsl_env], [wsl_cmd]) together with the fragment of the
    Python runtime they rely on: strings with slicing and indexing,
    insertion-ordered dictionaries, exceptions.

    Characters are the code points below 256, so a Python [str] is a
    [string] of the Standard Library. *)

From Stdlib Require Import String Ascii List Bool Arith Lia.
From Stdlib Require Import Permutation.
Import ListNotations.

Open Scope string_scope.
Open Scope nat_scope.
Open Scope list_scope.

Notation "s1 +++ s2" := (String.append s1 s2)
  (at level 60, right associativity) : string_scope.

(** ** Exceptions *)

Inductive exn : Type :=
| IndexError
| KeyError.

Inductive result (A : Type) : Type :=
| Ok (a : A)
| Raise (e : exn).

Arguments Ok {A} a.
Arguments Raise {A} e.

Definition bind {A B : Type} (m : result A) (k : A -> result B) : result B :=
  match m with
  | Ok a => k a
  | Raise e => Raise e
  end.

Notation "x <- m ;; k" := (bind m (fun x => k))
  (at level 61, m at next level, right associativity).
Notation "' p <- m ;; k" := (bind m (fun x => let p := x in k))
  (at level 61, p pattern, m at next level, right associativity).

(** ** Python strings *)

Module PyStr.

Definition backslash : ascii := "\"%char.
Definition slash : ascii := "/"%char.

(** [s[n:]] *)
Fixpoint drop (n : nat) (s : string) : string :=
  match n, s with
  | O, _ => s
  | S _, EmptyString => EmptyString
  | S n', String _ s' => drop n' s'
  end.

(** [s[:n]] *)
Fixpoint take (n : nat) (s : string) : string :=
  match n, s with
  | O, _ => EmptyString
  | S _, EmptyString => EmptyString
  | S n', String c s' => String c (take n' s')
  end.

(** [s[a:b]] for non-negative bounds; out-of-range bounds are clipped. *)
Definition slice (a b : nat) (s : string) : string :=
  take (b - a) (drop a s).

(** [s[:-n]] *)
Definition drop_last (n : nat) (s : string) : string :=
  take (String.length s - n) s.

(** [s[i]] for a non-negative index. *)
Fixpoint index (i : nat) (s : string) : result ascii :=
  match s, i with
  | EmptyString, _ => Raise IndexError
  | String c _, O => Ok c
  | String _ s', S i' => index i' s'
  end.

(** [s[-i]], [i >= 1]. *)
Definition index_neg (i : nat) (s : string) : result ascii :=
  if String.length s <? i then Raise IndexError
  else index (String.length s - i) s.

(** [s.startswith(p)] *)
Fixpoint startswith (p s : string) : bool :=
  match p, s with
  | EmptyString, _ => true
  | String _ _, EmptyString => false
  | String a p', String b s' => Ascii.eqb a b && startswith p' s'
  end.

(** [s.replace("\\", "/")] *)
Fixpoint replace_backslash (s : string) : string :=
  match s with
  | EmptyString => EmptyString
  | String c s' =>
      String (if Ascii.eqb c backslash then slash else c) (replace_backslash s')
  end.

(** [c.lower()] on the code points below 256: the ASCII capitals and
    the capitals of the Latin-1 supplement (all of U+00C0..U+00DE but
    the multiplication sign U+00D7) move up by 32. *)
Definition lower (c : ascii) : ascii :=
  let n := nat_of_ascii c in
  if ((65 <=? n) && (n <=? 90))
     || ((192 <=? n) && (n <=? 222) && negb (n =? 215))
  then ascii_of_nat (n + 32)
  else c.

(** [c.isspace()] on the code points below 256. *)
Definition isspace (c : ascii) : bool :=
  let n := nat_of_ascii c in
  ((9 <=? n) && (n <=? 13)) || ((28 <=? n) && (n <=? 32))
  || (n =? 133) || (n =? 160).

(** [s.lstrip(chars)], with the set of characters given as a predicate. *)
Fixpoint lstrip (p : ascii -> bool) (s : string) : string :=
  match s with
  | EmptyString => EmptyString
  | String c s' => if p c then lstrip p s' else s
  end.

(** [s.rstrip(chars)] *)
Fixpoint rstrip (p : ascii -> bool) (s : string) : string :=
  match s with
  | EmptyString => EmptyString
  | String c s' =>
      match rstrip p s' with
      | EmptyString => if p c then EmptyString else String c EmptyString
      | r => String c r
      end
  end.

Definition strip_with (p : ascii -> bool) (s : string) : string :=
  rstrip p (lstrip p s).

(** [s.strip()] *)
Definition strip (s : string) : string := strip_with isspace s.

(** The character set of [s.strip(" :")]. *)
Definition space_or_colon (c : ascii) : bool :=
  Ascii.eqb c " "%char || Ascii.eqb c ":"%char.

(** [s.split(" ")]: every single space separates two tokens, so the
    result is never empty and empty tokens are kept.  [split_first]
    returns the token that starts the string and the tokens after it. *)
Fixpoint split_first (s : string) : string * list string :=
  match s with
  | EmptyString => (EmptyString, [])
  | String c s' =>
      let (t, ts) := split_first s' in
      if Ascii.eqb c " "%char then (EmptyString, t :: ts)
      else (String c t, ts)
  end.

Definition split_space (s : string) : list string :=
  let (t, ts) := split_first s in t :: ts.

(** [sep.join(l)] *)
Fixpoint join (sep : string) (l : list string) : string :=
  match l with
  | [] => EmptyString
  | [x] => x
  | x :: xs => x +++ sep +++ join sep xs
  end.

(** Truthiness of a string. *)
Definition nonempty (s : string) : bool :=
  match s with
  | EmptyString => false
  | String _ _ => true
  end.

End PyStr.

(** ** Python dictionaries

    A [dict] keeps its entries in insertion order and holds each key
    once.  Assigning to a key that is present keeps its position;
    assigning to a new key appends the entry. *)

Module PyDict.

Definition dict : Type := list (string * string).

Definition keys (d : dict) : list string := map fst d.

(** [d.get(k)] *)
Fixpoint get (k : string) (d : dict) : option string :=
  match d with
  | [] => None
  | (k', v) :: d' => if String.eqb k' k then Some v else get k d'
  end.

(** [d.get(k, default)] *)
Definition get_default (k default : string) (d : dict) : string :=
  match get k d with
  | Some v => v
  | None => default
  end.

(** [d[k]] *)
Definition getitem (k : string) (d : dict) : result string :=
  match get k d with
  | Some v => Ok v
  | None => Raise KeyError
  end.

(** [d[k] = v] *)
Fixpoint set (k v : string) (d : dict) : dict :=
  match d with
  | [] => [(k, v)]
  | (k', v') :: d' =>
      if String.eqb k' k then (k', v) :: d' else (k', v') :: set k v d'
  end.

Fixpoint remove (k : string) (d : dict) : dict :=
  match d with
  | [] => []
  | (k', v) :: d' => if String.eqb k' k then d' else (k', v) :: remove k d'
  end.

(** [d.pop(k)]: the value and the dictionary without the key. *)
Definition pop (k : string) (d : dict) : result (string * dict) :=
  match get k d with
  | Some v => Ok (v, remove k d)
  | None => Raise KeyError
  end.

End PyDict.

(** ** [WslExecCommand] *)

Import PyStr PyDict.

(** *** [wsl_path] *)

(** The pattern [r"\\\\wsl(?:\.localhost|\$)\\[^\\]*"] tried at the start
    of [s]: the text left after the match, if there is one.  The two
    alternatives start with different characters, so the first one that
    matches is the only one that can; the closing [[^\\]*] is greedy and
    nothing follows it, so it takes every character up to the next
    backslash. *)
Definition match_lit (p s : string) : option string :=
  if startswith p s then Some (drop (String.length p) s) else None.

Definition re_match (s : string) : option string :=
  match match_lit "\\wsl" s with
  | None => None
  | Some r1 =>
      match
        match match_lit ".localhost" r1 with
        | Some r => Some r
        | None => match_lit "$" r1
        end
      with
      | None => None
      | Some r2 =>
          match match_lit "\" r2 with
          | None => None
          | Some r3 => Some (lstrip (fun c => negb (Ascii.eqb c backslash)) r3)
          end
      end
  end.

(** [re.sub(pattern, "", s)]: the leftmost matches, none overlapping
    another, are deleted.  [skip] is the number of characters of a match
    in progress that are still to be deleted. *)
Fixpoint re_sub_from (skip : nat) (s : string) : string :=
  match s with
  | EmptyString => EmptyString
  | String c s' =>
      match skip with
      | S n => re_sub_from n s'
      | O =>
          match re_match s with
          | Some rest => re_sub_from (String.length s' - String.length rest) s'
          | None => String c (re_sub_from 0 s')
          end
      end
  end.

Definition re_sub (s : string) : string := re_sub_from 0 s.

Definition wsl_path (path : string) : result string :=
  path <- (if startswith "\\" path then
             Ok (re_sub path)
           else if String.eqb (slice 1 3 path) ":\" then
             c <- index 0 path ;;
             Ok ("/mnt/" +++ String (lower c) EmptyString +++ drop 2 path)
           else
             Ok path) ;;
  Ok (replace_backslash path).

(** *** [wsl_cmd] *)

(** The command is a string or a list of strings. *)
Inductive command : Type :=
| CmdStr (s : string)
| CmdList (l : list string).

Definition launcher (external : bool) : list string :=
  if external then ["start"; "cmd"; "/k"; "wsl"] else ["wsl"].

Definition wsl_cmd (cmd : command) (cwd : string) (external : bool)
  : result (list string) :=
  let wsl := launcher external in
  wsl <- (if nonempty cwd then
            p <- wsl_path cwd ;;
            Ok (wsl ++ ["cd"; p; ";"])
          else Ok wsl) ;;
  match cmd with
  | CmdStr s => Ok (wsl ++ map strip (split_space s))
  | CmdList l => Ok (wsl ++ l)
  end.

(** *** [wsl_env] *)

Definition flags : list ascii := ["l"; "p"; "u"; "w"]%char.

(** [key[-2] == "/" and key[-1] in ("l", "p", "u", "w")] *)
Definition has_flag (key : string) : result bool :=
  c2 <- index_neg 2 key ;;
  if Ascii.eqb c2 "/"%char then
    c1 <- index_neg 1 key ;;
    Ok (existsb (Ascii.eqb c1) flags)
  else Ok false.

(** The loop over the keys collected on entry. *)
Fixpoint strip_flags (keys : list string) (env : dict) : result dict :=
  match keys with
  | [] => Ok env
  | key :: rest =>
      flagged <- has_flag key ;;
      if (flagged : bool) then
        '(v, env) <- pop key env ;;
        strip_flags rest (set (drop_last 2 key) v env)
      else strip_flags rest env
  end.

(** The dictionary is updated in place and returned; the model returns
    the updated dictionary. *)
Definition wsl_env (env : dict) : result dict :=
  let keys := PyDict.keys env in
  match keys with
  | [] => Ok env
  | _ :: _ =>
      let existing := get_default "WSLENV" "" env in
      let env := set "WSLENV" (join ":" keys) env in
      env <- (if nonempty existing then
                cur <- getitem "WSLENV" env ;;
                Ok (set "WSLENV"
                        (cur +++ ":" +++ strip_with space_or_colon existing) env)
              else Ok env) ;;
      strip_flags keys env
  end.

(** *** [run]

    [run] calls into the editor ([extract_variables],
    [expand_variables], the [run] of the parent class); what it computes
    itself is modelled here: the unix variables it adds to the build
    variables, and the keyword arguments it assembles before the
    variables are expanded. *)

(** The build variables that hold a path. *)
Definition path_variables : list string :=
  ["file"; "file_path"; "folder"; "packages"; "project"; "project_path"].

(** [var in variables] *)
Definition mem (k : string) (d : dict) : bool :=
  match get k d with
  | Some _ => true
  | None => false
  end.

(** The loop over the path variables.  The source iterates over a set
    literal, whose order is not fixed: [vars] is the order taken. *)
Fixpoint add_unix_variables (vars : list string) (variables : dict)
  : result dict :=
  match vars with
  | [] => Ok variables
  | var :: rest =>
      if mem var variables then
        v <- getitem var variables ;;
        p <- wsl_path v ;;
        add_unix_variables rest (set ("unix_" +++ var) p variables)
      else add_unix_variables rest variables
  end.

(** Keyword arguments: a dictionary whose values are strings, lists of
    strings, dictionaries of strings, or anything else a build system
    may hold, which [run] passes on without looking at it. *)
Inductive arg (A : Type) : Type :=
| ArgStr (s : string)
| ArgList (l : list string)
| ArgDict (d : dict)
| ArgOther (a : A).

Arguments ArgStr {A} s.
Arguments ArgList {A} l.
Arguments ArgDict {A} d.
Arguments ArgOther {A} a.

Module PyKw.

Definition kwdict (A : Type) : Type := list (string * arg A).

(** [d.get(k)] *)
Fixpoint lookup {A : Type} (k : string) (d : kwdict A) : option (arg A) :=
  match d with
  | [] => None
  | (k', v) :: d' => if String.eqb k' k then Some v else lookup k d'
  end.

(** [d[k] = v] *)
Fixpoint assign {A : Type} (k : string) (v : arg A) (d : kwdict A)
  : kwdict A :=
  match d with
  | [] => [(k, v)]
  | (k', v') :: d' =>
      if String.eqb k' k then (k', v) :: d' else (k', v') :: assign k v d'
  end.

End PyKw.

Import PyKw.

(** Truthiness of a dictionary. *)
Definition truthy (d : dict) : bool :=
  match d with
  | [] => false
  | _ :: _ => true
  end.

(** The arguments that are not passed on to the parent class. *)
Definition dropped_keys : list string := ["env"; "shell_cmd"; "working_dir"].

Definition is_dropped (k : string) : bool :=
  existsb (String.eqb k) dropped_keys.

Section Run.

Context {A : Type}.

(** [subprocess.list2cmdline], which belongs to the Python library. *)
Variable list2cmdline : list string -> string.

(** The keyword arguments [run] has built when it turns to the build
    variables.  [wsl_env_arg] is [None] for the default of the
    parameter; [external] stands for the test [external is True]. *)
Definition run_args
  (wsl_cmd_arg : command) (wsl_working_dir : string)
  (wsl_env_arg : option dict) (external : bool) (kwargs : kwdict A)
  : result (kwdict A) :=
  let wsl_args := filter (fun kv => negb (is_dropped (fst kv))) kwargs in
  wsl_args <- (if external then
                 argv <- wsl_cmd wsl_cmd_arg wsl_working_dir true ;;
                 Ok (assign "shell_cmd" (ArgStr (list2cmdline argv)) wsl_args)
               else
                 argv <- wsl_cmd wsl_cmd_arg wsl_working_dir false ;;
                 Ok (assign "cmd" (ArgList argv) wsl_args)) ;;
  match wsl_env_arg with
  | Some env =>
      if truthy env then
        env' <- wsl_env env ;;
        Ok (assign "env" (ArgDict env') wsl_args)
      else Ok wsl_args
  | None => Ok wsl_args
  end.

End Run.

(** ** Vocabulary of the specification *)

(** [c in s] *)
Fixpoint contains (c : ascii) (s : string) : bool :=
  match s with
  | EmptyString => false
  | String c' s' => Ascii.eqb c' c || contains c s'
  end.

(** A path is already in POSIX form when it has no backslash. *)
Definition is_posix (p : string) : bool := negb (contains backslash p).

Definition is_ascii_upper (c : ascii) : bool :=
  (65 <=? nat_of_ascii c) && (nat_of_ascii c <=? 90).

Definition is_ascii_lower (c : ascii) : bool :=
  (97 <=? nat_of_ascii c) && (nat_of_ascii c <=? 122).

Definition is_ascii_letter (c : ascii) : bool :=
  is_ascii_upper c || is_ascii_lower c.

(** The mount form of a path [c:\rest]: the character before the colon
    in lower case after the mount root, then the rest, all backslashes
    turned into slashes. *)
Definition mount_form (c : ascii) (rest : string) : string :=
  "/mnt/" +++ replace_backslash (String (lower c) ("\" +++ rest)).

(** The last character of a string is white space. *)
Fixpoint ends_with_space (s : string) : bool :=
  match s with
  | EmptyString => false
  | String c EmptyString => isspace c
  | String _ s' => ends_with_space s'
  end.

Definition starts_with_space (s : string) : bool :=
  match s with
  | EmptyString => false
  | String c _ => isspace c
  end.

(** A token carries no white space at either end. *)
Definition stripped (s : string) : Prop :=
  starts_with_space s = false /\ ends_with_space s = false.

(** The working-directory segment of the argument vector, [p] being the
    translated directory. *)
Definition cd_segment (cwd p : string) : list string :=
  if nonempty cwd then ["cd"; p; ";"] else [].

(** The name of an entry without its conversion flag. *)
Definition is_flagged (key : string) : bool :=
  match has_flag key with
  | Ok b => b
  | Raise _ => false
  end.

Definition bare_name (key : string) : string :=
  if is_flagged key then drop_last 2 key else key.

(** Every key is long enough for the suffix test. *)
Definition long_keys (env : dict) : Prop :=
  forall k, In k (keys env) -> 2 <= String.length k.

(** No two entries meet under one name once the flags are removed: the
    bare name of a flagged key is not a key of the mapping, and no two
    flagged keys have the same bare name. *)
Definition no_name_clash (env : dict) : Prop :=
  (forall k, In k (keys env) -> is_flagged k = true ->
             ~ In (bare_name k) (keys env))
  /\ (forall k1 k2, In k1 (keys env) -> In k2 (keys env) ->
                    is_flagged k1 = true -> is_flagged k2 = true ->
                    bare_name k1 = bare_name k2 -> k1 = k2).

(** Two backslashes in a row somewhere in the string. *)
Fixpoint has_double_backslash (s : string) : bool :=
  match s with
  | EmptyString => false
  | String a s' =>
      (Ascii.eqb a backslash && startswith "\" s') || has_double_backslash s'
  end.

(** The tokens a command stands for: the stripped pieces of a string,
    the elements of a list. *)
Definition command_tokens (cmd : command) : list string :=
  match cmd with
  | CmdStr s => map strip (split_space s)
  | CmdList l => l
  end.

(** The value stored under [WSLENV]: the keys of the mapping as they
    were entered, joined by colons, followed by what the mapping already
    held under [WSLENV], trimmed of spaces and colons, when that is not
    empty. *)
Definition directive (env : dict) : string :=
  let names := join ":" (keys env) in
  match get "WSLENV" env with
  | Some e =>
      if nonempty e then names +++ ":" +++ strip_with space_or_colon e
      else names
  | None => names
  end.

(** Every character of the string is white space. *)
Fixpoint all_space (s : string) : bool :=
  match s with
  | EmptyString => true
  | String c s' => isspace c && all_space s'
  end.

(** [t] is [raw] without the white space at its two ends: [raw] is [t]
    between two runs of white space, and [t] has none at either end. *)
Definition trimmed_of (raw t : string) : Prop :=
  stripped t
  /\ exists l r, raw = l +++ t +++ r
                 /\ all_space l = true /\ all_space r = true.

(** [raw] is the list of the pieces of [s] between its spaces: there is
    at least one, none has a space, and joined by single spaces they
    give [s]. *)
Definition pieces_of (s : string) (raw : list string) : Prop :=
  raw <> []
  /\ join " " raw = s
  /\ Forall (fun t => contains " " t = false) raw.

(** ** Sample runs *)

Example wsl_path_docstring :
  wsl_path "C:\Path\to\File" = Ok "/mnt/c/Path/to/File".
Proof. reflexivity. Qed.

Example wsl_path_short : wsl_path "C:" = Ok "C:".
Proof. reflexivity. Qed.

Example wsl_path_other_unc :
  wsl_path "\\server\share\x" = Ok "//server/share/x".
Proof. reflexivity. Qed.

Example wsl_path_two_shares :
  wsl_path "\\wsl$\U\a\\wsl$\V\b" = Ok "/a/b".
Proof. reflexivity. Qed.

Example wsl_env_docstring :
  wsl_env [("PLAIN", "untranslated"); ("LIST/l", "%PATH%"); ("UNIX/u", "~/")]
  = Ok [("PLAIN", "untranslated"); ("WSLENV", "PLAIN:LIST/l:UNIX/u");
        ("LIST", "%PATH%"); ("UNIX", "~/")].
Proof. reflexivity. Qed.

Example wsl_env_existing_directive :
  wsl_env [("AA", "1"); ("WSLENV", " :ZZ/p: ")]
  = Ok [("AA", "1"); ("WSLENV", "AA:WSLENV:ZZ/p")].
Proof. reflexivity. Qed.

Example wsl_cmd_list_external :
  wsl_cmd (CmdList ["echo"; "hi there"]) "" true
  = Ok ["start"; "cmd"; "/k"; "wsl"; "echo"; "hi there"].
Proof. reflexivity. Qed.

(** ** Paths *)

Section PathFacts.

Lemma replace_backslash_posix (s : string) :
  is_posix (replace_backslash s) = true.
Proof.
  unfold is_posix. induction s as [|c s IH]; simpl; [reflexivity|].
  destruct (Ascii.eqb c backslash) eqn:E; simpl.
  - exact IH.
  - rewrite E. exact IH.
Qed.

Lemma replace_backslash_id (s : string) :
  is_posix s = true -> replace_backslash s = s.
Proof.
  unfold is_posix. induction s as [|c s IH]; simpl; [reflexivity|].
  destruct (Ascii.eqb c backslash) eqn:E; simpl; [discriminate|].
  intros H. now rewrite IH.
Qed.

Lemma replace_backslash_app (a b : string) :
  replace_backslash (a +++ b) = replace_backslash a +++ replace_backslash b.
Proof. induction a as [|c a IH]; simpl; [reflexivity|]. now rewrite IH. Qed.

(** A path with a colon and a backslash at positions 1 and 2 has a
    character at position 0. *)
Lemma slice_1_3_shape (p : string) :
  slice 1 3 p = ":\" -> exists c rest, p = String c (":\" +++ rest).
Proof.
  destruct p as [|c0 [|c1 [|c2 r]]]; cbn; try discriminate.
  intros H. injection H as -> ->. now exists c0, r.
Qed.

Lemma wsl_path_mount (c : ascii) (rest : string) :
  wsl_path (String c (":\" +++ rest)) = Ok (mount_form c rest).
Proof.
  assert (Hs : startswith "\\" (String c (":\" +++ rest)) = false).
  { cbn [startswith append].
    change (Ascii.eqb "\" ":") with false. apply andb_false_r. }
  unfold wsl_path. rewrite Hs. reflexivity.
Qed.

Lemma wsl_path_passthrough (p : string) :
  startswith "\\" p = false -> slice 1 3 p <> ":\" ->
  wsl_path p = Ok (replace_backslash p).
Proof.
  intros Hs Hd. unfold wsl_path. rewrite Hs.
  destruct (String.eqb (slice 1 3 p) ":\") eqn:E.
  - apply String.eqb_eq in E. contradiction.
  - reflexivity.
Qed.

Lemma posix_not_network (p : string) :
  is_posix p = true -> startswith "\\" p = false.
Proof.
  unfold is_posix. destruct p as [|c p]; [reflexivity|].
  cbn [startswith contains]. fold backslash.
  rewrite (Ascii.eqb_sym backslash c).
  destruct (Ascii.eqb c backslash); [discriminate|reflexivity].
Qed.

Lemma posix_not_drive (p : string) :
  is_posix p = true -> slice 1 3 p <> ":\".
Proof.
  intros H Hd. destruct (slice_1_3_shape p Hd) as (c & rest & ->).
  unfold is_posix in H. cbn [contains append] in H.
  change (Ascii.eqb "\" backslash) with true in H.
  rewrite !orb_true_r in H. discriminate.
Qed.

Lemma wsl_path_posix (p : string) :
  is_posix p = true -> wsl_path p = Ok p.
Proof.
  intros H. rewrite wsl_path_passthrough.
  - now rewrite replace_backslash_id.
  - now apply posix_not_network.
  - now apply posix_not_drive.
Qed.

(** [wsl_path] never raises, and what it returns has no backslash. *)
Lemma wsl_path_total (p : string) :
  exists q, wsl_path p = Ok q /\ is_posix q = true.
Proof.
  unfold wsl_path. destruct (startswith "\\" p).
  - eexists; split; [reflexivity|apply replace_backslash_posix].
  - destruct (String.eqb (slice 1 3 p) ":\") eqn:E.
    + apply String.eqb_eq in E.
      destruct (slice_1_3_shape p E) as (c & rest & ->). cbn.
      eexists; split; [reflexivity|].
      apply (replace_backslash_posix
               ("/mnt/" +++ String (lower c) ("\" +++ rest))).
    + eexists; split; [reflexivity|apply replace_backslash_posix].
Qed.

(** Translating twice is translating once, whatever the path. *)
Lemma wsl_path_twice (p : string) :
  exists q, wsl_path p = Ok q /\ wsl_path q = Ok q.
Proof.
  destruct (wsl_path_total p) as (q & Hq & Hposix).
  exists q. split; [exact Hq|now apply wsl_path_posix].
Qed.

Lemma mount_form_letter (c : ascii) (rest : string) :
  is_ascii_letter c = true ->
  mount_form c rest
  = "/mnt/" +++ String (lower c) ("/" +++ replace_backslash rest).
Proof.
  intros H. unfold mount_form. cbn [replace_backslash append].
  replace (Ascii.eqb (lower c) backslash) with false; [reflexivity|].
  revert H. destruct c as [[] [] [] [] [] [] [] []]; cbv;
    intros H; first [discriminate H | reflexivity].
Qed.

Lemma lower_ascii_letter (c : ascii) :
  is_ascii_letter c = true ->
  is_ascii_lower (lower c) = true
  /\ (if is_ascii_upper c
      then nat_of_ascii (lower c) = nat_of_ascii c + 32
      else lower c = c).
Proof.
  destruct c as [[] [] [] [] [] [] [] []]; cbv; intros H;
    first [discriminate H | split; reflexivity].
Qed.

End PathFacts.

(** C6: for every drive-letter path [X:\rest] with [X] an ASCII letter
    (so for every path of the form [X:\a\b]), [wsl_path] returns
    [/mnt/<lower(X)>/] followed by the rest of the path with every
    backslash turned into a slash; the letter after the mount root is
    the lower-case form of [X]. *)
Theorem wsl_path_drive_letter (X : ascii) (rest : string) :
  is_ascii_letter X = true ->
  wsl_path (String X (":\" +++ rest))
  = Ok ("/mnt/" +++ String (lower X) ("/" +++ replace_backslash rest))
  /\ is_ascii_lower (lower X) = true
  /\ (if is_ascii_upper X
      then nat_of_ascii (lower X) = nat_of_ascii X + 32
      else lower X = X)
  /\ is_posix (replace_backslash rest) = true.
Proof.
  intros HX. split; [|split; [|split]].
  - rewrite wsl_path_mount. f_equal. now apply mount_form_letter.
  - now apply lower_ascii_letter.
  - now apply lower_ascii_letter.
  - apply replace_backslash_posix.
Qed.

Lemma wsl_path_drive_letter_witness :
  is_ascii_letter "C" = true /\ wsl_path "C:\a\b" = Ok "/mnt/c/a/b".
Proof.
  split; [reflexivity|].
  exact (proj1 (wsl_path_drive_letter "C" "a\b" eq_refl)).
Defined.

(** C7: both spellings of the network prefix, [\\wsl$\<distro>] and
    [\\wsl.localhost\<distro>], are removed: the two paths to [home\u]
    in the distribution [Ubuntu] both become [/home/u]. *)
Theorem wsl_path_network_prefixes :
  wsl_path "\\wsl$\Ubuntu\home\u" = Ok "/home/u"
  /\ wsl_path "\\wsl.localhost\Ubuntu\home\u" = Ok "/home/u".
Proof. split; reflexivity. Qed.

(** C8, as stated, fails: the path [1:\x] does not start with an ASCII
    letter, yet it is rewritten to the mount form instead of being passed
    through with its backslashes converted. *)
Lemma wsl_path_digit_drive :
  is_ascii_letter "1" = false
  /\ wsl_path "1:\x" = Ok "/mnt/1/x"
  /\ wsl_path "1:\x" <> Ok (replace_backslash "1:\x").
Proof. split; [reflexivity|split; [reflexivity|discriminate]]. Qed.

(** C8, amended: among the paths that do not start with two backslashes,
    the mount rewrite applies exactly to those with a colon and a
    backslash at positions 1 and 2; the character at position 0 is not
    inspected, whatever it is it is lower-cased and placed after the mount
    root.  Every other such path is passed through with its backslashes
    converted. *)
Theorem wsl_path_drive_rule (p : string) :
  startswith "\\" p = false ->
  (slice 1 3 p = ":\"
   /\ exists c rest, p = String c (":\" +++ rest)
                     /\ wsl_path p = Ok (mount_form c rest))
  \/ (slice 1 3 p <> ":\" /\ wsl_path p = Ok (replace_backslash p)).
Proof.
  intros Hs. destruct (string_dec (slice 1 3 p) ":\") as [E|E].
  - left. split; [exact E|].
    destruct (slice_1_3_shape p E) as (c & rest & ->).
    exists c, rest. split; [reflexivity|apply wsl_path_mount].
  - right. split; [exact E|now apply wsl_path_passthrough].
Qed.

Lemma wsl_path_drive_rule_witness :
  startswith "\\" "1:\x" = false
  /\ ((slice 1 3 "1:\x" = ":\"
       /\ exists c rest, "1:\x" = String c (":\" +++ rest)
                         /\ wsl_path "1:\x" = Ok (mount_form c rest))
      \/ (slice 1 3 "1:\x" <> ":\"
          /\ wsl_path "1:\x" = Ok (replace_backslash "1:\x"))).
Proof.
  split; [reflexivity|].
  exact (wsl_path_drive_rule "1:\x" eq_refl).
Defined.

(** C9: [wsl_path] is idempotent on the paths that are already in POSIX
    form: the first translation returns a path, and translating that path
    again returns it unchanged. *)
Theorem wsl_path_idempotent (p : string) :
  is_posix p = true ->
  exists q, wsl_path p = Ok q /\ wsl_path q = Ok q.
Proof. intros _. apply wsl_path_twice. Qed.

Lemma wsl_path_idempotent_witness :
  is_posix "/home/u" = true
  /\ exists q, wsl_path "/home/u" = Ok q /\ wsl_path q = Ok q.
Proof.
  split; [reflexivity|].
  exact (wsl_path_idempotent "/home/u" eq_refl).
Defined.

(** ** Commands *)

Section CommandFacts.

Lemma split_first_app_space (a b : string) :
  split_first (a +++ String " " b)
  = (fst (split_first a), snd (split_first a) ++ split_space b).
Proof.
  induction a as [|c a IH]; cbn [append split_first].
  - unfold split_space. destruct (split_first b) as [t ts]. reflexivity.
  - rewrite IH. destruct (split_first a) as [t ts]. cbn [fst snd].
    destruct (Ascii.eqb c " "); reflexivity.
Qed.

(** A space closes the tokens of what precedes it and opens those of
    what follows. *)
Lemma split_space_app_space (a b : string) :
  split_space (a +++ String " " b) = split_space a ++ split_space b.
Proof.
  unfold split_space at 1 2. rewrite split_first_app_space.
  destruct (split_first a) as [t ts]. reflexivity.
Qed.

Lemma split_space_two_spaces (a b : string) :
  split_space (a +++ "  " +++ b)
  = split_space a ++ [""] ++ split_space b.
Proof.
  change (a +++ "  " +++ b) with (a +++ String " " (String " " b)).
  rewrite split_space_app_space.
  change (String " " b) with ("" +++ String " " b).
  rewrite split_space_app_space. reflexivity.
Qed.

Lemma split_space_trailing_space (a : string) :
  split_space (a +++ " ") = split_space a ++ [""].
Proof. apply (split_space_app_space a ""). Qed.

(** Joining the tokens with single spaces gives the string back. *)
Lemma join_split_space (s : string) : join " " (split_space s) = s.
Proof.
  unfold split_space. induction s as [|c s IH]; [reflexivity|].
  cbn [split_first]. destruct (split_first s) as [t ts].
  destruct (Ascii.eqb c " ") eqn:E.
  - apply Ascii.eqb_eq in E. subst c.
    change (join " " ("" :: t :: ts)) with (String " " (join " " (t :: ts))).
    now rewrite IH.
  - rewrite <- IH. destruct ts; reflexivity.
Qed.

Lemma lstrip_starts (s : string) :
  starts_with_space (lstrip isspace s) = false.
Proof.
  induction s as [|c s IH]; [reflexivity|]. cbn [lstrip].
  destruct (isspace c) eqn:E; [exact IH|]. exact E.
Qed.

Lemma rstrip_starts (s : string) :
  starts_with_space s = false ->
  starts_with_space (rstrip isspace s) = false.
Proof.
  destruct s as [|c s]; [reflexivity|]. cbn [starts_with_space rstrip].
  intros E. destruct (rstrip isspace s); [rewrite E|]; exact E.
Qed.

Lemma rstrip_ends (s : string) :
  ends_with_space (rstrip isspace s) = false.
Proof.
  induction s as [|c s IH]; [reflexivity|]. cbn [rstrip].
  destruct (rstrip isspace s) as [|c' r].
  - destruct (isspace c) eqn:E; [reflexivity|exact E].
  - exact IH.
Qed.

Lemma strip_stripped (s : string) : stripped (strip s).
Proof.
  unfold stripped, strip, strip_with. split.
  - apply rstrip_starts, lstrip_starts.
  - apply rstrip_ends.
Qed.

Lemma Forall_stripped_tokens (s : string) :
  Forall stripped (map strip (split_space s)).
Proof.
  apply Forall_forall. intros t Ht. apply in_map_iff in Ht.
  destruct Ht as (u & <- & _). apply strip_stripped.
Qed.

(** The launcher tokens and the working-directory segment: what
    [wsl_cmd] builds before it looks at the command. *)
Lemma wsl_cmd_list (l : list string) (cwd : string) (external : bool) :
  exists p, wsl_path cwd = Ok p
            /\ wsl_cmd (CmdList l) cwd external
               = Ok ((launcher external ++ cd_segment cwd p) ++ l).
Proof.
  destruct (wsl_path_total cwd) as (p & Hp & _). exists p.
  split; [exact Hp|]. unfold wsl_cmd, cd_segment. rewrite Hp.
  destruct (nonempty cwd); cbn [bind]; [reflexivity|].
  now rewrite app_nil_r.
Qed.

Lemma wsl_cmd_str (s cwd : string) (external : bool) :
  exists p, wsl_path cwd = Ok p
            /\ wsl_cmd (CmdStr s) cwd external
               = Ok ((launcher external ++ cd_segment cwd p)
                       ++ map strip (split_space s)).
Proof.
  destruct (wsl_path_total cwd) as (p & Hp & _). exists p.
  split; [exact Hp|]. unfold wsl_cmd, cd_segment. rewrite Hp.
  destruct (nonempty cwd); cbn [bind]; [reflexivity|].
  now rewrite app_nil_r.
Qed.

End CommandFacts.

(** C3, as stated, fails for the empty string: splitting it gives one
    empty token, which follows the launcher in the result. *)
Lemma wsl_cmd_empty_string_token :
  wsl_cmd (CmdStr "") "" false = Ok ["wsl"; ""]
  /\ wsl_cmd (CmdStr "") "" false <> Ok (launcher false).
Proof. split; [reflexivity|discriminate]. Qed.

(** C3, amended: for every launcher mode and working directory no error
    is raised.  With the empty list the result is the launcher prefix
    and, when the directory is not empty, the working-directory segment,
    and nothing else; with the empty string the same tokens are followed
    by one empty token. *)
Theorem wsl_cmd_empty_command (cwd : string) (external : bool) :
  exists p,
    wsl_path cwd = Ok p
    /\ wsl_cmd (CmdList []) cwd external
       = Ok (launcher external ++ cd_segment cwd p)
    /\ wsl_cmd (CmdStr "") cwd external
       = Ok (launcher external ++ cd_segment cwd p ++ [""]).
Proof.
  destruct (wsl_cmd_list [] cwd external) as (p & Hp & Hl).
  destruct (wsl_cmd_str "" cwd external) as (p' & Hp' & Hs).
  rewrite Hp in Hp'. injection Hp' as <-.
  exists p. split; [exact Hp|]. split.
  - rewrite Hl. now rewrite app_nil_r.
  - rewrite Hs. now rewrite <- app_assoc.
Qed.

(** C5: without a working directory the string [echo hi] gives
    [wsl echo hi]; with a non-empty directory [D] already in POSIX form
    it gives [wsl cd D ; echo hi]. *)
Theorem wsl_cmd_echo_hi (D : string) :
  nonempty D = true -> is_posix D = true ->
  wsl_cmd (CmdStr "echo hi") "" false = Ok ["wsl"; "echo"; "hi"]
  /\ wsl_cmd (CmdStr "echo hi") D false
     = Ok ["wsl"; "cd"; D; ";"; "echo"; "hi"].
Proof.
  intros Hne Hposix. split; [reflexivity|].
  unfold wsl_cmd. rewrite Hne, (wsl_path_posix D Hposix). reflexivity.
Qed.

Lemma wsl_cmd_echo_hi_witness :
  nonempty "/home/u" = true /\ is_posix "/home/u" = true
  /\ wsl_cmd (CmdStr "echo hi") "/home/u" false
     = Ok ["wsl"; "cd"; "/home/u"; ";"; "echo"; "hi"].
Proof.
  split; [reflexivity|]. split; [reflexivity|].
  exact (proj2 (wsl_cmd_echo_hi "/home/u" eq_refl eq_refl)).
Defined.


(** ** Dictionaries *)

Section DictFacts.

Lemma get_set (k k' v : string) (d : dict) :
  get k' (set k v d) = if String.eqb k k' then Some v else get k' d.
Proof.
  induction d as [|[k0 v0] d IH]; cbn [set get].
  - reflexivity.
  - destruct (String.eqb_spec k0 k) as [->|Hk]; cbn [get].
    + destruct (String.eqb k k'); reflexivity.
    + rewrite IH. destruct (String.eqb_spec k0 k') as [->|Hk'].
      * destruct (String.eqb_spec k k'); [congruence|reflexivity].
      * reflexivity.
Qed.

Lemma get_remove_other (k k' : string) (d : dict) :
  k' <> k -> get k' (remove k d) = get k' d.
Proof.
  intros Hk. induction d as [|[k0 v0] d IH]; cbn [remove get].
  - reflexivity.
  - destruct (String.eqb_spec k0 k) as [->|H0]; cbn [get].
    + destruct (String.eqb_spec k k'); [congruence|reflexivity].
    + now rewrite IH.
Qed.

Lemma get_in_keys (k : string) (d : dict) :
  get k d <> None <-> In k (keys d).
Proof.
  induction d as [|[k0 v0] d IH]; cbn [get keys map fst In].
  - split; [congruence|tauto].
  - destruct (String.eqb_spec k0 k) as [->|H0].
    + split; [auto|discriminate].
    + rewrite IH. unfold keys. tauto.
Qed.

Lemma get_entry (k v : string) (d : dict) :
  NoDup (keys d) -> In (k, v) d -> get k d = Some v.
Proof.
  induction d as [|[k0 v0] d IH]; cbn [get keys map fst In]; [tauto|].
  intros Hnd [E|Hin].
  - injection E as -> ->. now rewrite String.eqb_refl.
  - inversion Hnd as [|? ? Hnot Hnd']; subst.
    destruct (String.eqb_spec k0 k) as [->|H0].
    + exfalso. apply Hnot. apply (in_map fst) in Hin. exact Hin.
    + now apply IH.
Qed.

Lemma keys_set (k v : string) (d : dict) :
  forall x, In x (keys (set k v d)) <-> x = k \/ In x (keys d).
Proof.
  intros x. rewrite <- !get_in_keys, get_set.
  destruct (String.eqb_spec k x) as [->|Hk].
  - split; [auto|discriminate].
  - split; [auto|]. intros [->|H]; [congruence|exact H].
Qed.

Lemma keys_remove (k : string) (d : dict) :
  forall x, In x (keys (remove k d)) -> In x (keys d).
Proof.
  induction d as [|[k0 v0] d IH]; cbn [remove keys map fst In]; [tauto|].
  intros x. destruct (String.eqb k0 k); cbn [keys map fst In].
  - auto.
  - intros [E|Hin]; [auto|right; now apply IH].
Qed.

Lemma NoDup_set (k v : string) (d : dict) :
  NoDup (keys d) -> NoDup (keys (set k v d)).
Proof.
  induction d as [|[k0 v0] d IH]; cbn [set keys map fst]; intros Hnd.
  - constructor; [intros []|constructor].
  - inversion Hnd as [|? ? Hnot Hnd']; subst.
    destruct (String.eqb_spec k0 k) as [->|H0]; cbn [keys map fst].
    + now constructor.
    + constructor; [|now apply IH].
      intros Hin. apply keys_set in Hin. destruct Hin; [congruence|auto].
Qed.

Lemma NoDup_remove (k : string) (d : dict) :
  NoDup (keys d) -> NoDup (keys (remove k d)).
Proof.
  induction d as [|[k0 v0] d IH]; cbn [remove keys map fst]; intros Hnd.
  - constructor.
  - inversion Hnd as [|? ? Hnot Hnd']; subst.
    destruct (String.eqb k0 k); cbn [keys map fst]; [exact Hnd'|].
    constructor; [|now apply IH].
    intros Hin. apply Hnot. now apply keys_remove in Hin.
Qed.

(** A key that is present can be popped. *)
Lemma pop_present (k : string) (d : dict) :
  get k d <> None ->
  exists v, get k d = Some v /\ pop k d = Ok (v, remove k d).
Proof.
  unfold pop. destruct (get k d) as [v|]; [|congruence].
  intros _. now exists v.
Qed.

End DictFacts.

(** ** Environments *)

Section EnvFacts.

Lemma index_lt (s : string) :
  forall i, i < String.length s -> exists c, index i s = Ok c.
Proof.
  induction s as [|c s IH]; cbn [String.length index]; intros i Hi.
  - lia.
  - destruct i as [|i]; [now exists c|]. apply IH. lia.
Qed.

Lemma index_neg_ok (i : nat) (s : string) :
  1 <= i <= String.length s -> exists c, index_neg i s = Ok c.
Proof.
  intros Hi. unfold index_neg.
  destruct (Nat.ltb_spec (String.length s) i); [lia|].
  apply index_lt. lia.
Qed.

(** The suffix test reads the last two characters: it needs two. *)
Lemma has_flag_long (key : string) :
  2 <= String.length key -> has_flag key = Ok (is_flagged key).
Proof.
  intros Hlen. unfold is_flagged, has_flag.
  destruct (index_neg_ok 2 key) as (c2 & ->); [lia|]. cbn [bind].
  destruct (Ascii.eqb c2 "/"); [|reflexivity].
  destruct (index_neg_ok 1 key) as (c1 & ->); [lia|]. reflexivity.
Qed.

Lemma has_flag_short (key : string) :
  String.length key < 2 -> has_flag key = Raise IndexError.
Proof.
  intros Hlen. unfold has_flag, index_neg.
  destruct (Nat.ltb_spec (String.length key) 2); [reflexivity|lia].
Qed.

(** The loop never pops a key that is missing: every key it visits
    is still in the dictionary, so with keys of two characters or more
    it runs to its end. *)
Lemma strip_flags_total (ks : list string) :
  forall d,
    NoDup ks ->
    (forall k, In k ks -> 2 <= String.length k) ->
    (forall k, In k ks -> get k d <> None) ->
    exists out, strip_flags ks d = Ok out.
Proof.
  induction ks as [|key rest IH]; intros d Hnd Hlen Hin; cbn [strip_flags].
  - now exists d.
  - inversion Hnd as [|? ? Hnot Hnd']; subst.
    rewrite has_flag_long by (apply Hlen; now left). cbn [bind].
    destruct (is_flagged key).
    + destruct (pop_present key d) as (v & _ & ->);
        [apply Hin; now left|]. cbn [bind].
      apply IH; [exact Hnd'|intros; apply Hlen; now right|].
      intros k Hk. rewrite get_set.
      destruct (String.eqb (drop_last 2 key) k); [discriminate|].
      rewrite get_remove_other by (intros ->; contradiction).
      apply Hin. now right.
    + apply IH; [exact Hnd'|intros; apply Hlen; now right|].
      intros; apply Hin; now right.
Qed.

(** A key shorter than two characters stops the loop with an
    [IndexError]. *)
Lemma strip_flags_short_key (ks : list string) :
  forall d,
    NoDup ks ->
    (forall k, In k ks -> get k d <> None) ->
    (exists k, In k ks /\ String.length k < 2) ->
    strip_flags ks d = Raise IndexError.
Proof.
  induction ks as [|key rest IH]; intros d Hnd Hin (k & Hk & Hshort).
  - destruct Hk.
  - cbn [strip_flags]. inversion Hnd as [|? ? Hnot Hnd']; subst.
    destruct (Nat.lt_ge_cases (String.length key) 2) as [Hs|Hl].
    + now rewrite has_flag_short.
    + assert (Hrest : exists k, In k rest /\ String.length k < 2).
      { exists k. split; [|exact Hshort].
        destruct Hk as [->|Hk]; [lia|exact Hk]. }
      rewrite has_flag_long by exact Hl. cbn [bind].
      destruct (is_flagged key).
      * destruct (pop_present key d) as (v & _ & ->);
          [apply Hin; now left|]. cbn [bind].
        apply IH; [exact Hnd'| |exact Hrest].
        intros k' Hk'. rewrite get_set.
        destruct (String.eqb (drop_last 2 key) k'); [discriminate|].
        rewrite get_remove_other by (intros ->; contradiction).
        apply Hin. now right.
      * apply IH; [exact Hnd'| |exact Hrest].
        intros; apply Hin; now right.
Qed.

(** What the loop leaves in the dictionary when no bare name of a
    flagged key is a key itself and no two flagged keys share their
    bare name: each flagged entry is found under its bare name, and
    every name that is neither a flagged key nor the bare name of one
    keeps what it had. *)
Lemma strip_flags_spec (ks : list string) :
  forall d,
    NoDup (keys d) ->
    NoDup ks ->
    (forall k, In k ks -> 2 <= String.length k) ->
    (forall k, In k ks -> is_flagged k = true -> get k d <> None) ->
    (forall k, In k ks -> is_flagged k = true -> ~ In (drop_last 2 k) ks) ->
    (forall k1 k2, In k1 ks -> In k2 ks ->
                   is_flagged k1 = true -> is_flagged k2 = true ->
                   drop_last 2 k1 = drop_last 2 k2 -> k1 = k2) ->
    exists out,
      strip_flags ks d = Ok out
      /\ NoDup (keys out)
      /\ (forall k, In k ks -> is_flagged k = true ->
                    get (drop_last 2 k) out = get k d)
      /\ (forall n, (forall k, In k ks -> is_flagged k = true ->
                               n <> k /\ n <> drop_last 2 k) ->
                    get n out = get n d).
Proof.
  induction ks as [|key rest IH];
    intros d Hd Hnd Hlen Hin Hfresh Hinj; cbn [strip_flags].
  - exists d. repeat split; [exact Hd|intros k []].
  - inversion Hnd as [|? ? Hnot Hnd']; subst.
    rewrite has_flag_long by (apply Hlen; now left). cbn [bind].
    destruct (is_flagged key) eqn:Hkey.
    + destruct (pop_present key d) as (v & Hv & ->);
        [apply Hin; [now left|exact Hkey]|]. cbn [bind].
      set (d2 := set (drop_last 2 key) v (remove key d)).
      assert (Hd2 : forall n, n <> key -> n <> drop_last 2 key ->
                              get n d2 = get n d).
      { intros n H1 H2. unfold d2. rewrite get_set.
        destruct (String.eqb_spec (drop_last 2 key) n); [congruence|].
        now apply get_remove_other. }
      assert (Hrest : forall k, In k rest -> get k d2 = get k d).
      { intros k Hk. apply Hd2.
        - intros ->. contradiction.
        - intros ->. apply (Hfresh key); [now left|exact Hkey|now right]. }
      destruct (IH d2) as (out & Hout & Hnd_out & Hflag & Hother).
      * apply NoDup_set, NoDup_remove, Hd.
      * exact Hnd'.
      * intros; apply Hlen; now right.
      * intros k Hk Hf. rewrite Hrest by exact Hk. apply Hin; [now right|exact Hf].
      * intros k Hk Hf Hbad. apply (Hfresh k); [now right|exact Hf|now right].
      * intros k1 k2 H1 H2. apply Hinj; now right.
      * exists out. split; [exact Hout|]. split; [exact Hnd_out|]. split.
        -- intros k [<-|Hk] Hf.
           ++ rewrite Hother.
              ** unfold d2. rewrite get_set, String.eqb_refl. now symmetry.
              ** intros k' Hk' Hf'. split.
                 --- intros E. apply (Hfresh key); [now left|exact Hkey|].
                     right. now rewrite E.
                 --- intros E. apply Hnot.
                     rewrite (Hinj key k'); auto; [now left|now right].
           ++ rewrite Hflag by assumption. now apply Hrest.
        -- intros n Hn. rewrite Hother.
           ++ destruct (Hn key) as [H1 H2]; [now left|exact Hkey|].
              now apply Hd2.
           ++ intros k Hk Hf. apply Hn; [now right|exact Hf].
    + destruct (IH d) as (out & Hout & Hnd_out & Hflag & Hother).
      * exact Hd.
      * exact Hnd'.
      * intros; apply Hlen; now right.
      * intros k Hk. apply Hin. now right.
      * intros k Hk Hf Hbad. apply (Hfresh k); [now right|exact Hf|now right].
      * intros k1 k2 H1 H2. apply Hinj; now right.
      * exists out. split; [exact Hout|]. split; [exact Hnd_out|]. split.
        -- intros k [<-|Hk] Hf; [congruence|now apply Hflag].
        -- intros n Hn. apply Hother.
           intros k Hk Hf. apply Hn; [now right|exact Hf].
Qed.

End EnvFacts.

Section BridgeFacts.

(** Before the loop the directive is stored under [WSLENV]; the other
    entries are as supplied. *)
Lemma wsl_env_publish (env : dict) :
  keys env <> [] ->
  exists dv d0,
    wsl_env env = strip_flags (keys env) d0
    /\ (NoDup (keys env) -> NoDup (keys d0))
    /\ get "WSLENV" d0 = Some dv
    /\ (forall k, k <> "WSLENV" -> get k d0 = get k env).
Proof.
  intros Hne. unfold wsl_env.
  destruct (keys env) as [|k0 ks] eqn:E; [congruence|]. rewrite <- E.
  set (names := join ":" (keys env)).
  destruct (nonempty (get_default "WSLENV" "" env)).
  - unfold getitem. rewrite get_set, String.eqb_refl. cbn [bind].
    eexists _, _. split; [reflexivity|]. split; [|split].
    + intros H. now apply NoDup_set, NoDup_set.
    + rewrite get_set, String.eqb_refl. reflexivity.
    + intros k Hk. rewrite !get_set.
      destruct (String.eqb_spec "WSLENV" k); [congruence|reflexivity].
  - cbn [bind]. eexists _, _. split; [reflexivity|]. split; [|split].
    + intros H. now apply NoDup_set.
    + rewrite get_set, String.eqb_refl. reflexivity.
    + intros k Hk. rewrite get_set.
      destruct (String.eqb_spec "WSLENV" k); [congruence|reflexivity].
Qed.

Lemma publish_present (env d0 : dict) (dv : string) :
  get "WSLENV" d0 = Some dv ->
  (forall k, k <> "WSLENV" -> get k d0 = get k env) ->
  forall k, In k (keys env) -> get k d0 <> None.
Proof.
  intros Hw Ho k Hk. destruct (string_dec k "WSLENV") as [->|Hn].
  - rewrite Hw. discriminate.
  - rewrite Ho by exact Hn. now apply get_in_keys.
Qed.

(** With keys of two characters or more [wsl_env] returns. *)
Lemma wsl_env_total (env : dict) :
  NoDup (keys env) -> long_keys env -> exists out, wsl_env env = Ok out.
Proof.
  intros Hnd Hlen. destruct env as [|e env'].
  - now exists [].
  - destruct (wsl_env_publish (e :: env')) as (dv & d0 & -> & _ & Hw & Ho);
      [discriminate|].
    apply strip_flags_total; [exact Hnd|exact Hlen|].
    now apply (publish_present (e :: env') d0 dv).
Qed.

(** With a key of fewer than two characters it raises. *)
Lemma wsl_env_short_key (env : dict) (k : string) :
  NoDup (keys env) -> In k (keys env) -> String.length k < 2 ->
  wsl_env env = Raise IndexError.
Proof.
  intros Hnd Hk Hshort.
  destruct (wsl_env_publish env) as (dv & d0 & -> & _ & Hw & Ho).
  { intros E. rewrite E in Hk. destruct Hk. }
  apply strip_flags_short_key; [exact Hnd| |now exists k].
  now apply (publish_present env d0 dv).
Qed.

Lemma bare_name_flagged (k : string) :
  is_flagged k = true -> bare_name k = drop_last 2 k.
Proof. unfold bare_name. now intros ->. Qed.

Lemma bare_name_plain (k : string) :
  is_flagged k = false -> bare_name k = k.
Proof. unfold bare_name. now intros ->. Qed.

End BridgeFacts.

(** C1: the suffix test reads [key[-2]] without looking at the length
    of the key, so a key of one character raises [IndexError]. *)
Theorem wsl_env_one_char_key :
  wsl_env [("A", "1")] = Raise IndexError.
Proof. reflexivity. Qed.

(** C2: on the mapping [{"A": "1", "B/p": "C:\\x"}] the loop reaches the
    key [A] first and raises [IndexError]; no mapping is returned. *)
Theorem wsl_env_example_raises :
  wsl_env [("A", "1"); ("B/p", "C:\x")] = Raise IndexError.
Proof. reflexivity. Qed.

(** The same mapping with names of two characters. *)
Example wsl_env_example_long_names :
  wsl_env [("AA", "1"); ("BB/p", "C:\x")]
  = Ok [("AA", "1"); ("WSLENV", "AA:BB/p"); ("BB", "C:\x")].
Proof. reflexivity. Qed.

(** A key of two characters is read within its bounds. *)
Example wsl_env_two_char_keys :
  wsl_env [("/p", "v"); ("AB", "w")]
  = Ok [("AB", "w"); ("WSLENV", "/p:AB"); ("", "v")].
Proof. reflexivity. Qed.

(** C4, as stated, fails: when a flagged name and its unflagged
    counterpart are both supplied, the two meet under one name and the
    value of the unflagged entry is gone from the result. *)
Lemma wsl_env_flag_clash :
  wsl_env [("BB/p", "x"); ("BB", "y")]
  = Ok [("BB", "x"); ("WSLENV", "BB/p:BB")]
  /\ ~ In "y" (map snd [("BB", "x"); ("WSLENV", "BB/p:BB")]).
Proof.
  split; [reflexivity|]. cbn [map snd In].
  intros [H|[H|[]]]; discriminate H.
Qed.

(** C4, amended: for every mapping with keys of two characters or more
    in which no two entries meet under one name once the flags are
    removed, [wsl_env] returns a mapping where every input name, flag
    removed, appears exactly once, and where every entry other than
    [WSLENV] (whose value is replaced by the directive) has the value
    that was supplied. *)
Theorem wsl_env_keeps_entries (env : dict) :
  NoDup (keys env) -> long_keys env -> no_name_clash env ->
  exists out,
    wsl_env env = Ok out
    /\ forall k v, In (k, v) env ->
         count_occ string_dec (keys out) (bare_name k) = 1
         /\ (k <> "WSLENV" -> get (bare_name k) out = Some v).
Proof.
  intros Hnd Hlen [Hfresh Hinj]. destruct env as [|e env'].
  { exists []. split; [reflexivity|]. intros k v []. }
  remember (e :: env') as env eqn:Eenv.
  destruct (wsl_env_publish env) as (dv & d0 & -> & Hnd0 & Hw & Ho).
  { subst env. discriminate. }
  clear Eenv e env'.
  assert (Hpresent := publish_present env d0 dv Hw Ho).
  destruct (strip_flags_spec (keys env) d0)
    as (out & Hout & Hnd_out & Hflag & Hother).
  - now apply Hnd0.
  - exact Hnd.
  - exact Hlen.
  - intros k Hk _. now apply Hpresent.
  - intros k Hk Hf. rewrite <- (bare_name_flagged k Hf). now apply Hfresh.
  - intros k1 k2 H1 H2 Hf1 Hf2.
    rewrite <- (bare_name_flagged k1 Hf1), <- (bare_name_flagged k2 Hf2).
    now apply Hinj.
  - exists out. split; [exact Hout|]. intros k v Hin.
    assert (Hk : In k (keys env)) by (apply (in_map fst) in Hin; exact Hin).
    assert (Hget : get (bare_name k) out = get k d0).
    { destruct (is_flagged k) eqn:Hf.
      - rewrite (bare_name_flagged k Hf). now apply Hflag.
      - rewrite (bare_name_plain k Hf). apply Hother.
        intros k' Hk' Hf'. split.
        + intros ->. congruence.
        + intros ->. apply (Hfresh k'); [exact Hk'|exact Hf'|].
          now rewrite (bare_name_flagged k' Hf'). }
    split.
    + apply NoDup_count_occ'; [exact Hnd_out|].
      apply get_in_keys. rewrite Hget. now apply Hpresent.
    + intros Hn. rewrite Hget, Ho by exact Hn. now apply get_entry.
Qed.

Lemma wsl_env_keeps_entries_witness :
  exists out,
    wsl_env [("AA", "1"); ("BB/p", "C:\x")] = Ok out
    /\ forall k v, In (k, v) [("AA", "1"); ("BB/p", "C:\x")] ->
         count_occ string_dec (keys out) (bare_name k) = 1
         /\ (k <> "WSLENV" -> get (bare_name k) out = Some v).
Proof.
  apply (wsl_env_keeps_entries [("AA", "1"); ("BB/p", "C:\x")]).
  - repeat constructor; cbn [In]; intros H;
      repeat destruct H as [H|H]; try discriminate H; exact H.
  - intros k [<-|[<-|[]]]; simpl; lia.
  - split.
    + intros k [<-|[<-|[]]] Hf; [discriminate Hf|].
      intros [H|[H|[]]]; discriminate H.
    + intros k1 k2 [<-|[<-|[]]] [<-|[<-|[]]] H1 H2 _;
        first [reflexivity | discriminate H1 | discriminate H2].
Defined.


(** ** More on paths *)

Section StringFacts.

Lemma length_app (a b : string) :
  String.length (a +++ b) = String.length a + String.length b.
Proof. induction a as [|c a IH]; cbn [append String.length]; [reflexivity|]. now rewrite IH. Qed.

Lemma app_assoc_str (a b c : string) : (a +++ b) +++ c = a +++ (b +++ c).
Proof. induction a as [|x a IH]; cbn [append]; [reflexivity|]. now rewrite IH. Qed.

Lemma app_empty_r (a : string) : a +++ "" = a.
Proof. induction a as [|x a IH]; cbn [append]; [reflexivity|]. now rewrite IH. Qed.

Lemma startswith_prefix (p r : string) : startswith p (p +++ r) = true.
Proof.
  induction p as [|c p IH]; cbn [append startswith]; [reflexivity|].
  now rewrite Ascii.eqb_refl, IH.
Qed.

Lemma drop_prefix (p r : string) : drop (String.length p) (p +++ r) = r.
Proof. induction p as [|c p IH]; cbn [append String.length drop]; [reflexivity|exact IH]. Qed.

Lemma take_prefix (p r : string) : take (String.length p) (p +++ r) = p.
Proof.
  induction p as [|c p IH]; cbn [append String.length take]; [now destruct r|].
  now rewrite IH.
Qed.

(** A string that starts with [p] is [p] followed by the rest. *)
Lemma startswith_split (p s : string) :
  startswith p s = true -> s = p +++ drop (String.length p) s.
Proof.
  revert s. induction p as [|c p IH]; intros s; cbn [startswith append String.length drop].
  - reflexivity.
  - destruct s as [|d s]; [discriminate|]. intros H.
    apply andb_true_iff in H. destruct H as [Hc Hp].
    apply Ascii.eqb_eq in Hc. subst d. cbn [drop]. now rewrite <- IH.
Qed.

Lemma startswith_app (p q s : string) :
  startswith (p +++ q) s
  = startswith p s && startswith q (drop (String.length p) s).
Proof.
  revert s. induction p as [|c p IH]; intros s; cbn [append startswith String.length drop].
  - reflexivity.
  - destruct s as [|d s]; [reflexivity|]. cbn [drop].
    rewrite IH. now rewrite andb_assoc.
Qed.

Lemma index_app (a s : string) (i : nat) :
  index (String.length a + i) (a +++ s) = index i s.
Proof. induction a as [|c a IH]; cbn [append String.length index Nat.add]; [reflexivity|exact IH]. Qed.

End StringFacts.

Section ShareFacts.

Lemma match_lit_some (p s r : string) : match_lit p s = Some r -> s = p +++ r.
Proof.
  unfold match_lit. destruct (startswith p s) eqn:E; [|discriminate].
  intros H. injection H as <-. now apply startswith_split.
Qed.

(** A match is one of the two share prefixes followed by a run of
    characters other than the backslash. *)
Lemma re_match_shape (s r : string) :
  re_match s = Some r ->
  exists mid,
    (s = "\\wsl.localhost\" +++ mid \/ s = "\\wsl$\" +++ mid)
    /\ r = lstrip (fun c => negb (Ascii.eqb c backslash)) mid.
Proof.
  unfold re_match.
  destruct (match_lit "\\wsl" s) as [r1|] eqn:E1; [|discriminate].
  apply match_lit_some in E1.
  destruct (match_lit ".localhost" r1) as [r2|] eqn:E2.
  - apply match_lit_some in E2.
    destruct (match_lit "\" r2) as [r3|] eqn:E3; [|discriminate].
    apply match_lit_some in E3. intros H. injection H as <-.
    exists r3. split; [left|reflexivity]. subst s r1 r2. reflexivity.
  - destruct (match_lit "$" r1) as [r2|] eqn:E2'; [|discriminate].
    apply match_lit_some in E2'.
    destruct (match_lit "\" r2) as [r3|] eqn:E3; [|discriminate].
    apply match_lit_some in E3. intros H. injection H as <-.
    exists r3. split; [right|reflexivity]. subst s r1 r2. reflexivity.
Qed.

Lemma re_match_dollar (mid : string) :
  re_match ("\\wsl$\" +++ mid)
  = Some (lstrip (fun c => negb (Ascii.eqb c backslash)) mid).
Proof. reflexivity. Qed.

Lemma re_match_localhost (mid : string) :
  re_match ("\\wsl.localhost\" +++ mid)
  = Some (lstrip (fun c => negb (Ascii.eqb c backslash)) mid).
Proof. reflexivity. Qed.

Lemma re_match_long (s r : string) :
  re_match s = Some r -> 7 <= String.length s.
Proof.
  intros H. destruct (re_match_shape s r H) as (mid & [->| ->] & _);
    rewrite length_app; cbn [String.length]; lia.
Qed.

Lemma re_match_unc (s r : string) :
  re_match s = Some r -> startswith "\\" s = true.
Proof.
  intros H. destruct (re_match_shape s r H) as (mid & [->| ->] & _);
    reflexivity.
Qed.

Lemma re_sub_from_skip (a b : string) :
  re_sub_from (String.length a) (a +++ b) = re_sub_from 0 b.
Proof.
  induction a as [|c a IH]; cbn [append String.length re_sub_from];
    [reflexivity|exact IH].
Qed.

(** Without two backslashes in a row there is nothing to delete. *)
Lemma re_sub_plain (s : string) :
  has_double_backslash s = false -> re_sub_from 0 s = s.
Proof.
  induction s as [|c s IH]; [reflexivity|].
  cbn [has_double_backslash re_sub_from]. intros H.
  apply orb_false_iff in H. destruct H as [Hhere Hrest].
  destruct (re_match (String c s)) as [r|] eqn:E.
  - apply re_match_unc in E.
    change (Ascii.eqb backslash c && startswith "\" s = true) in E.
    rewrite (Ascii.eqb_sym backslash c) in E. congruence.
  - now rewrite IH.
Qed.

Lemma re_sub_short (s : string) :
  String.length s < 7 -> re_sub_from 0 s = s.
Proof.
  induction s as [|c s IH]; [reflexivity|].
  cbn [String.length re_sub_from]. intros H.
  destruct (re_match (String c s)) as [r|] eqn:E.
  - apply re_match_long in E. cbn [String.length] in E. lia.
  - rewrite IH by lia. reflexivity.
Qed.

Lemma lstrip_run (d tail : string) :
  contains backslash d = false ->
  startswith "\" tail = true \/ tail = "" ->
  lstrip (fun c => negb (Ascii.eqb c backslash)) (d +++ tail) = tail.
Proof.
  intros Hd Ht. induction d as [|c d IH]; cbn [append].
  - destruct Ht as [Ht| ->]; [|reflexivity].
    destruct tail as [|c t]; [discriminate|]. cbn [startswith] in Ht.
    rewrite andb_true_r in Ht. cbn [lstrip].
    fold backslash in Ht. rewrite (Ascii.eqb_sym backslash c) in Ht.
    now rewrite Ht.
  - cbn [contains] in Hd. apply orb_false_iff in Hd. destruct Hd as [Hc Hd].
    cbn [lstrip]. rewrite Hc. cbn [negb]. now apply IH.
Qed.

(** Deleting a share prefix and its distribution name from the start
    of a path. *)
Lemma re_sub_share (prefix distro tail : string) :
  re_match (String "\" prefix +++ distro +++ tail) = Some tail ->
  has_double_backslash tail = false ->
  re_sub (String "\" prefix +++ distro +++ tail) = tail.
Proof.
  intros Hm Ht. unfold re_sub. cbn [append re_sub_from]. cbn [append] in Hm.
  rewrite Hm. rewrite <- app_assoc_str, length_app, Nat.add_sub.
  rewrite re_sub_from_skip. now apply re_sub_plain.
Qed.

End ShareFacts.

(** X1: [wsl_path] never raises, whatever the string, and the path it
    returns has no backslash left. *)
Theorem wsl_path_never_raises (p : string) :
  exists q, wsl_path p = Ok q /\ contains backslash q = false.
Proof.
  destruct (wsl_path_total p) as (q & Hq & Hposix). exists q.
  split; [exact Hq|]. unfold is_posix in Hposix.
  now destruct (contains backslash q).
Qed.

(** X2: a path of fewer than three characters is too short for either
    rewrite: it is returned with its backslashes converted, and the
    character at position 0 is never read. *)
Theorem wsl_path_short_path (p : string) :
  String.length p < 3 -> wsl_path p = Ok (replace_backslash p).
Proof.
  intros Hlen. unfold wsl_path.
  destruct (startswith "\\" p) eqn:Hs.
  - unfold re_sub. rewrite re_sub_short by lia. reflexivity.
  - destruct (String.eqb (slice 1 3 p) ":\") eqn:E; [|reflexivity].
    apply String.eqb_eq in E.
    destruct (slice_1_3_shape p E) as (c & rest & ->).
    cbn [append String.length] in Hlen. lia.
Qed.

Lemma wsl_path_short_path_witness :
  String.length "C:" < 3 /\ wsl_path "C:" = Ok "C:".
Proof.
  split; [simpl; lia|].
  exact (wsl_path_short_path "C:" ltac:(simpl; lia)).
Defined.

(** X3: for either spelling of the share prefix, any distribution name
    (a run of characters other than the backslash) and any tail that is
    empty or starts with a backslash and has no two backslashes in a row,
    the prefix and the name are removed and the tail is returned with
    its backslashes converted.  A path that is only the share gives the
    empty string. *)
Theorem wsl_path_share (distro tail : string) :
  contains backslash distro = false ->
  startswith "\" tail = true \/ tail = "" ->
  has_double_backslash tail = false ->
  wsl_path ("\\wsl$\" +++ distro +++ tail) = Ok (replace_backslash tail)
  /\ wsl_path ("\\wsl.localhost\" +++ distro +++ tail)
     = Ok (replace_backslash tail).
Proof.
  intros Hd Hshape Ht. split.
  - unfold wsl_path.
    change (startswith "\\" ("\\wsl$\" +++ distro +++ tail)) with true.
    cbv iota. cbn [bind]. f_equal. f_equal.
    apply (re_sub_share "\wsl$\" distro tail); [|exact Ht].
    change (String "\" "\wsl$\" +++ distro +++ tail)
      with ("\\wsl$\" +++ distro +++ tail).
    rewrite re_match_dollar. f_equal. now apply lstrip_run.
  - unfold wsl_path.
    change (startswith "\\" ("\\wsl.localhost\" +++ distro +++ tail)) with true.
    cbv iota. cbn [bind]. f_equal. f_equal.
    apply (re_sub_share "\wsl.localhost\" distro tail); [|exact Ht].
    change (String "\" "\wsl.localhost\" +++ distro +++ tail)
      with ("\\wsl.localhost\" +++ distro +++ tail).
    rewrite re_match_localhost. f_equal. now apply lstrip_run.
Qed.

Lemma wsl_path_share_witness :
  wsl_path "\\wsl$\Debian\srv\www" = Ok "/srv/www"
  /\ wsl_path "\\wsl.localhost\Debian\srv\www" = Ok "/srv/www".
Proof.
  exact (wsl_path_share "Debian" "\srv\www" eq_refl (or_introl eq_refl) eq_refl).
Defined.

(** X4: only the two share names are recognised, in exactly that
    spelling.  A network path [\\q] whose [q] starts with neither
    [wsl$\] nor [wsl.localhost\] (and has no two backslashes in a row
    further on) keeps its host and share: it is returned whole, with the
    backslashes converted. *)
Theorem wsl_path_other_network (q : string) :
  startswith "wsl$\" q = false ->
  startswith "wsl.localhost\" q = false ->
  has_double_backslash (String "\" q) = false ->
  wsl_path ("\\" +++ q) = Ok ("//" +++ replace_backslash q).
Proof.
  intros H1 H2 Hq. unfold wsl_path.
  change (startswith "\\" ("\\" +++ q)) with true. cbv iota. cbn [bind].
  f_equal. unfold re_sub.
  change ("\\" +++ q) with (String "\" (String "\" q)).
  assert (Hstep : forall c s, re_match (String c s) = None ->
                              re_sub_from 0 (String c s)
                              = String c (re_sub_from 0 s)).
  { intros c s E. cbn [re_sub_from]. now rewrite E. }
  destruct (re_match (String "\" (String "\" q))) as [r|] eqn:E;
    [|rewrite (Hstep _ _ E)].
  - exfalso. destruct (re_match_shape _ _ E) as (mid & [Hm|Hm] & _);
      cbn [append] in Hm; injection Hm as ->.
    + change (startswith "wsl.localhost\" ("wsl.localhost\" +++ mid) = false) in H2.
      now rewrite startswith_prefix in H2.
    + change (startswith "wsl$\" ("wsl$\" +++ mid) = false) in H1.
      now rewrite startswith_prefix in H1.
  - rewrite (re_sub_plain (String "\" q) Hq). reflexivity.
Qed.

Lemma wsl_path_other_network_witness :
  wsl_path "\\WSL$\Ubuntu\home" = Ok "//WSL$/Ubuntu/home".
Proof.
  exact (wsl_path_other_network "WSL$\Ubuntu\home" eq_refl eq_refl eq_refl).
Defined.

(** ** More on commands *)

Section TokenFacts.

Lemma split_first_plain (w : string) :
  contains " " w = false -> split_first w = (w, []).
Proof.
  induction w as [|c w IH]; [reflexivity|]. cbn [contains split_first].
  intros H. apply orb_false_iff in H. destruct H as [Hc Hw].
  rewrite (IH Hw), Hc. reflexivity.
Qed.

(** Splitting undoes joining when no word has a space in it. *)
Lemma split_space_join (ws : list string) :
  ws <> [] ->
  Forall (fun w => contains " " w = false) ws ->
  split_space (join " " ws) = ws.
Proof.
  induction ws as [|w ws IH]; [congruence|]. intros _ Hall.
  inversion Hall as [|? ? Hw Hws]; subst.
  destruct ws as [|w2 ws].
  - cbn [join]. unfold split_space. now rewrite split_first_plain.
  - change (join " " (w :: w2 :: ws))
      with (w +++ String " " (join " " (w2 :: ws))).
    rewrite split_space_app_space, IH; [|discriminate|exact Hws].
    unfold split_space. now rewrite split_first_plain.
Qed.

Lemma lstrip_id (w : string) :
  starts_with_space w = false -> lstrip isspace w = w.
Proof.
  destruct w as [|c w]; [reflexivity|]. cbn [starts_with_space lstrip].
  now intros ->.
Qed.

Lemma rstrip_id (w : string) :
  ends_with_space w = false -> rstrip isspace w = w.
Proof.
  induction w as [|c w IH]; [reflexivity|]. destruct w as [|d w].
  - cbn [ends_with_space rstrip]. now intros ->.
  - intros H. change (ends_with_space (String d w) = false) in H.
    cbn [rstrip] in IH |- *. now rewrite (IH H).
Qed.

Lemma strip_id (w : string) : stripped w -> strip w = w.
Proof.
  intros [Hs He]. unfold strip, strip_with.
  rewrite (lstrip_id w Hs). now apply rstrip_id.
Qed.

Lemma map_strip_id (ws : list string) :
  Forall stripped ws -> map strip ws = ws.
Proof.
  induction 1 as [|w ws Hw _ IH]; [reflexivity|].
  cbn [map]. now rewrite (strip_id w Hw), IH.
Qed.

End TokenFacts.

(** [wsl_cmd] never raises.  Its result is the launcher, then the
    three tokens [cd], the translated directory and [;] exactly when the
    working directory is not empty, then the tokens of the command in
    their order; the translated directory has no backslash. *)
Theorem wsl_cmd_shape (cmd : command) (cwd : string) (external : bool) :
  exists p,
    wsl_path cwd = Ok p
    /\ contains backslash p = false
    /\ wsl_cmd cmd cwd external
       = Ok (launcher external
               ++ (if nonempty cwd then ["cd"; p; ";"] else [])
               ++ command_tokens cmd).
Proof.
  destruct (wsl_path_total cwd) as (p & Hp & Hposix). exists p.
  split; [exact Hp|]. split.
  - unfold is_posix in Hposix. now destruct (contains backslash p).
  - unfold wsl_cmd. rewrite Hp.
    destruct (nonempty cwd), cmd; cbn [bind command_tokens app];
      rewrite <- ?app_assoc; reflexivity.
Qed.

(** X5: a command written as words joined by single spaces means the
    same as the list of those words, provided there is at least one
    word and no word has a space in it or white space at either end. *)
Theorem wsl_cmd_string_as_list
  (ws : list string) (cwd : string) (external : bool) :
  ws <> [] ->
  Forall (fun w => contains " " w = false) ws ->
  Forall stripped ws ->
  wsl_cmd (CmdStr (join " " ws)) cwd external
  = wsl_cmd (CmdList ws) cwd external.
Proof.
  intros Hne Hsp Hst. unfold wsl_cmd.
  rewrite (split_space_join ws Hne Hsp), (map_strip_id ws Hst). reflexivity.
Qed.

Lemma wsl_cmd_string_as_list_witness :
  wsl_cmd (CmdStr "bundle exec rake") "" false
  = wsl_cmd (CmdList ["bundle"; "exec"; "rake"]) "" false.
Proof.
  apply (wsl_cmd_string_as_list ["bundle"; "exec"; "rake"] "" false).
  - discriminate.
  - repeat constructor.
  - repeat constructor.
Defined.


(** ** More on environments *)

Section LoopFacts.

Lemma get_remove_same (k : string) (d : dict) :
  NoDup (keys d) -> get k (remove k d) = None.
Proof.
  induction d as [|[k0 v0] d IH]; cbn [remove get keys map fst]; intros Hnd.
  - reflexivity.
  - inversion Hnd as [|? ? Hnot Hnd']; subst.
    destruct (String.eqb_spec k0 k) as [->|H0].
    + destruct (get k d) eqn:E; [|reflexivity].
      exfalso. apply Hnot. apply get_in_keys. congruence.
    + cbn [get]. destruct (String.eqb_spec k0 k); [congruence|]. now apply IH.
Qed.

Lemma set_set (k v1 v2 : string) (d : dict) :
  set k v2 (set k v1 d) = set k v2 d.
Proof.
  induction d as [|[k0 v0] d IH]; cbn [set].
  - now rewrite String.eqb_refl.
  - destruct (String.eqb k0 k) eqn:E; cbn [set]; rewrite E; [reflexivity|].
    now rewrite IH.
Qed.

(** Before the loop the mapping is the one supplied with the directive
    stored under [WSLENV]. *)
Lemma wsl_env_unfold (env : dict) :
  keys env <> [] ->
  wsl_env env = strip_flags (keys env) (set "WSLENV" (directive env) env).
Proof.
  intros Hne. unfold wsl_env, directive, get_default.
  destruct (keys env) as [|k0 ks] eqn:E; [congruence|]. rewrite <- E.
  destruct (get "WSLENV" env) as [e|].
  - destruct (nonempty e); cbn [bind]; [|reflexivity].
    unfold getitem. rewrite get_set, String.eqb_refl. cbn [bind].
    now rewrite set_set.
  - reflexivity.
Qed.

(** The loop only touches the flagged keys and their bare names. *)
Lemma strip_flags_untouched (ks : list string) :
  forall d,
    NoDup ks ->
    (forall k, In k ks -> 2 <= String.length k) ->
    (forall k, In k ks -> get k d <> None) ->
    exists out,
      strip_flags ks d = Ok out
      /\ forall n, (forall k, In k ks -> is_flagged k = true ->
                              n <> k /\ n <> drop_last 2 k) ->
                   get n out = get n d.
Proof.
  induction ks as [|key rest IH]; intros d Hnd Hlen Hin; cbn [strip_flags].
  - exists d. split; reflexivity.
  - inversion Hnd as [|? ? Hnot Hnd']; subst.
    rewrite has_flag_long by (apply Hlen; now left). cbn [bind].
    destruct (is_flagged key) eqn:Hkey.
    + destruct (pop_present key d) as (v & _ & ->);
        [apply Hin; now left|]. cbn [bind].
      destruct (IH (set (drop_last 2 key) v (remove key d)))
        as (out & Hout & Hother).
      * exact Hnd'.
      * intros; apply Hlen; now right.
      * intros k Hk. rewrite get_set.
        destruct (String.eqb (drop_last 2 key) k); [discriminate|].
        rewrite get_remove_other by (intros ->; contradiction).
        apply Hin. now right.
      * exists out. split; [exact Hout|]. intros n Hn.
        rewrite Hother by (intros k Hk Hf; apply Hn; [now right|exact Hf]).
        destruct (Hn key) as [H1 H2]; [now left|exact Hkey|].
        rewrite get_set.
        destruct (String.eqb_spec (drop_last 2 key) n); [congruence|].
        now apply get_remove_other.
    + destruct (IH d) as (out & Hout & Hother).
      * exact Hnd'.
      * intros; apply Hlen; now right.
      * intros; apply Hin; now right.
      * exists out. split; [exact Hout|]. intros n Hn. apply Hother.
        intros k Hk Hf. apply Hn; [now right|exact Hf].
Qed.

(** Without a flagged key the loop changes nothing. *)
Lemma strip_flags_plain (ks : list string) (d : dict) :
  (forall k, In k ks -> 2 <= String.length k) ->
  (forall k, In k ks -> is_flagged k = false) ->
  strip_flags ks d = Ok d.
Proof.
  induction ks as [|key rest IH]; intros Hlen Hpl; cbn [strip_flags].
  - reflexivity.
  - rewrite has_flag_long by (apply Hlen; now left). cbn [bind].
    rewrite (Hpl key) by now left.
    apply IH; intros; [apply Hlen|apply Hpl]; now right.
Qed.

(** With no two entries meeting under one name, the flagged keys are
    gone when the loop ends. *)
Lemma strip_flags_removed (ks : list string) :
  forall d out,
    NoDup (keys d) ->
    NoDup ks ->
    (forall k, In k ks -> 2 <= String.length k) ->
    (forall k, In k ks -> get k d <> None) ->
    (forall k, In k ks -> is_flagged k = true -> ~ In (drop_last 2 k) ks) ->
    strip_flags ks d = Ok out ->
    forall k, In k ks -> is_flagged k = true -> get k out = None.
Proof.
  induction ks as [|key rest IH];
    intros d out Hd Hnd Hlen Hin Hfresh Hrun k Hk Hf; [destruct Hk|].
  cbn [strip_flags] in Hrun.
  inversion Hnd as [|? ? Hnot Hnd']; subst.
  rewrite has_flag_long in Hrun by (apply Hlen; now left). cbn [bind] in Hrun.
  destruct (is_flagged key) eqn:Hkey.
  - destruct (pop_present key d) as (v & _ & Hpop); [apply Hin; now left|].
    rewrite Hpop in Hrun. cbn [bind] in Hrun.
    set (d2 := set (drop_last 2 key) v (remove key d)) in *.
    assert (Hin2 : forall k', In k' rest -> get k' d2 <> None).
    { intros k' Hk'. unfold d2. rewrite get_set.
      destruct (String.eqb (drop_last 2 key) k'); [discriminate|].
      rewrite get_remove_other by (intros ->; contradiction).
      apply Hin. now right. }
    destruct Hk as [<-|Hk].
    + destruct (strip_flags_untouched rest d2) as (out' & Hout' & Hother);
        [exact Hnd'|intros; apply Hlen; now right|exact Hin2|].
      rewrite Hrun in Hout'. injection Hout' as <-.
      rewrite Hother.
      * unfold d2. rewrite get_set.
        destruct (String.eqb_spec (drop_last 2 key) key) as [E|_].
        -- exfalso. apply (Hfresh key); [now left|exact Hkey|].
           rewrite E. now left.
        -- now apply get_remove_same.
      * intros k' Hk' Hf'. split.
        -- intros ->. contradiction.
        -- intros E. apply (Hfresh k'); [now right|exact Hf'|].
           rewrite <- E. now left.
    + apply (IH d2 out); try assumption.
      * apply NoDup_set, NoDup_remove, Hd.
      * intros; apply Hlen; now right.
      * intros k' Hk' Hf' Hbad.
        apply (Hfresh k'); [now right|exact Hf'|now right].
  - destruct Hk as [<-|Hk]; [congruence|].
    apply (IH d out); try assumption.
    + intros; apply Hlen; now right.
    + intros; apply Hin; now right.
    + intros k' Hk' Hf' Hbad.
      apply (Hfresh k'); [now right|exact Hf'|now right].
Qed.

Lemma last_two (k : string) :
  2 <= String.length k ->
  exists name a b, k = name +++ String a (String b "").
Proof.
  induction k as [|c k IH]; cbn [String.length]; [lia|]. intros Hlen.
  destruct k as [|d k]; [cbn [String.length] in Hlen; lia|].
  destruct k as [|e k].
  - now exists "", c, d.
  - destruct IH as (name & a & b & E); [cbn [String.length]; lia|].
    exists (String c name), a, b. cbn [append]. now rewrite <- E.
Qed.

Lemma has_flag_last_two (name : string) (a b : ascii) :
  has_flag (name +++ String a (String b ""))
  = Ok (Ascii.eqb a "/" && existsb (Ascii.eqb b) flags).
Proof.
  unfold has_flag, index_neg. rewrite length_app. cbn [String.length].
  destruct (Nat.ltb_spec (String.length name + 2) 2); [lia|].
  destruct (Nat.ltb_spec (String.length name + 2) 1); [lia|].
  replace (String.length name + 2 - 2) with (String.length name + 0) by lia.
  replace (String.length name + 2 - 1) with (String.length name + 1) by lia.
  rewrite !index_app. cbn [index bind].
  destruct (Ascii.eqb a "/"); reflexivity.
Qed.

Lemma drop_last_two (name : string) (a b : ascii) :
  drop_last 2 (name +++ String a (String b "")) = name.
Proof.
  unfold drop_last. rewrite length_app. cbn [String.length].
  replace (String.length name + 2 - 2) with (String.length name) by lia.
  apply take_prefix.
Qed.

End LoopFacts.

Section NameFacts.

Lemma wslenv_not_flagged : is_flagged "WSLENV" = false.
Proof. reflexivity. Qed.

(** What [wsl_env] returns when no two entries meet under one name,
    told in terms of the mapping [d0] the loop starts from. *)
Lemma wsl_env_clash_free (env : dict) :
  NoDup (keys env) -> long_keys env -> no_name_clash env ->
  keys env <> [] ->
  exists out,
    wsl_env env = Ok out
    /\ (forall k, In k (keys env) ->
          get (bare_name k) out
          = get k (set "WSLENV" (directive env) env))
    /\ (forall n, (forall k, In k (keys env) -> is_flagged k = true ->
                             n <> k /\ n <> bare_name k) ->
          get n out = get n (set "WSLENV" (directive env) env))
    /\ (forall k, In k (keys env) -> is_flagged k = true ->
          get k out = None).
Proof.
  intros Hnd Hlen [Hfresh Hinj] Hne. rewrite (wsl_env_unfold env Hne).
  set (d0 := set "WSLENV" (directive env) env).
  assert (Hd0 : NoDup (keys d0)) by now apply NoDup_set.
  assert (Hpresent : forall k, In k (keys env) -> get k d0 <> None).
  { intros k Hk. apply get_in_keys, keys_set. now right. }
  assert (Hfresh' : forall k, In k (keys env) -> is_flagged k = true ->
                              ~ In (drop_last 2 k) (keys env)).
  { intros k Hk Hf. rewrite <- (bare_name_flagged k Hf). now apply Hfresh. }
  destruct (strip_flags_spec (keys env) d0)
    as (out & Hout & _ & Hflag & Hother); try assumption.
  { intros k Hk _. now apply Hpresent. }
  { intros k1 k2 H1 H2 Hf1 Hf2.
    rewrite <- (bare_name_flagged k1 Hf1), <- (bare_name_flagged k2 Hf2).
    now apply Hinj. }
  assert (Hother' : forall n,
             (forall k, In k (keys env) -> is_flagged k = true ->
                        n <> k /\ n <> bare_name k) ->
             get n out = get n d0).
  { intros n Hn. apply Hother. intros k Hk Hf.
    rewrite <- (bare_name_flagged k Hf). now apply Hn. }
  exists out. split; [exact Hout|]. split; [|split].
  - intros k Hk. destruct (is_flagged k) eqn:Hf.
    + rewrite (bare_name_flagged k Hf). now apply Hflag.
    + rewrite (bare_name_plain k Hf). apply Hother'.
      intros k' Hk' Hf'. split.
      * intros ->. congruence.
      * intros ->. now apply (Hfresh k').
  - exact Hother'.
  - now apply (strip_flags_removed (keys env) d0 out).
Qed.

End NameFacts.

(** X6: on a mapping (its keys distinct) [wsl_env] returns when every
    key has two characters or more, raises [IndexError] when some key is
    shorter, and never raises [KeyError]: the loop only pops keys that
    are still there. *)
Theorem wsl_env_raises_iff (env : dict) :
  NoDup (keys env) ->
  (long_keys env -> exists out, wsl_env env = Ok out)
  /\ ((exists k, In k (keys env) /\ String.length k < 2) ->
      wsl_env env = Raise IndexError)
  /\ wsl_env env <> Raise KeyError.
Proof.
  intros Hnd. split; [|split].
  - now apply wsl_env_total.
  - intros (k & Hk & Hs). now apply (wsl_env_short_key env k).
  - destruct (Forall_Exists_dec (fun k => 2 <= String.length k)
                (fun k => le_dec 2 (String.length k)) (keys env)) as [Hl|Hs].
    + destruct (wsl_env_total env Hnd) as (out & ->); [|discriminate].
      intros k Hk. revert k Hk. now apply Forall_forall.
    + apply Exists_exists in Hs. destruct Hs as (k & Hk & Hs).
      rewrite (wsl_env_short_key env k Hnd Hk); [discriminate|lia].
Qed.

Lemma wsl_env_raises_iff_witness :
  wsl_env [("PATH/p", "x"); ("X", "1")] = Raise IndexError.
Proof.
  apply (wsl_env_raises_iff [("PATH/p", "x"); ("X", "1")]).
  - repeat constructor; cbn [In]; intros H;
      repeat destruct H as [H|H]; try discriminate H; exact H.
  - exists "X". split; [right; now left|simpl; lia].
Defined.

(** X7: the suffix test on a key that ends with a slash and one more
    character [f] says whether [f] is one of [l], [p], [u], [w].  If it
    is, the bare name is what precedes the slash; if it is not, the
    suffix stays part of the name. *)
Theorem has_flag_suffix (name : string) (f : ascii) :
  has_flag (name +++ String "/" (String f ""))
  = Ok (existsb (Ascii.eqb f) flags)
  /\ bare_name (name +++ String "/" (String f ""))
     = if existsb (Ascii.eqb f) flags then name
       else name +++ String "/" (String f "").
Proof.
  assert (H : has_flag (name +++ String "/" (String f ""))
              = Ok (existsb (Ascii.eqb f) flags))
    by (rewrite has_flag_last_two; reflexivity).
  split; [exact H|]. unfold bare_name, is_flagged. rewrite H.
  destruct (existsb (Ascii.eqb f) flags); [apply drop_last_two|reflexivity].
Qed.

(** X8: the only keys the suffix test accepts are those made of a name,
    a slash and one of the four flag letters. *)
Theorem is_flagged_shape (key : string) :
  is_flagged key = true ->
  exists name f,
    key = name +++ String "/" (String f "")
    /\ In f flags
    /\ bare_name key = name.
Proof.
  intros Hf. assert (Hlen : 2 <= String.length key).
  { destruct (Nat.lt_ge_cases (String.length key) 2) as [Hs|Hl]; [|exact Hl].
    unfold is_flagged in Hf. rewrite (has_flag_short key Hs) in Hf.
    discriminate. }
  destruct (last_two key Hlen) as (name & a & b & ->).
  assert (Hb := Hf). unfold is_flagged in Hf.
  rewrite has_flag_last_two in Hf. apply andb_true_iff in Hf.
  destruct Hf as [Ha Hex]. apply Ascii.eqb_eq in Ha. subst a.
  exists name, b. split; [reflexivity|]. split.
  - apply existsb_exists in Hex. destruct Hex as (x & Hx & E).
    apply Ascii.eqb_eq in E. now subst x.
  - rewrite (bare_name_flagged _ Hb). apply drop_last_two.
Qed.

Lemma is_flagged_shape_witness :
  exists name f,
    "MY_PATH/p" = name +++ String "/" (String f "")
    /\ In f flags
    /\ bare_name "MY_PATH/p" = name.
Proof. exact (is_flagged_shape "MY_PATH/p" eq_refl). Defined.

(** X9: when every key has two characters or more and no flagged key
    has the bare name [WSLENV], a mapping that is not empty comes back
    holding the directive under [WSLENV]: the keys as entered, flags
    attached, in the order of the mapping and joined by colons, then the
    trimmed value the mapping already had under [WSLENV] if that was not
    empty.  The empty mapping comes back empty, without [WSLENV]. *)
Theorem wsl_env_directive (env : dict) :
  NoDup (keys env) -> long_keys env ->
  (forall k, In k (keys env) -> is_flagged k = true ->
             bare_name k <> "WSLENV") ->
  exists out,
    wsl_env env = Ok out
    /\ get "WSLENV" out = match env with
                          | [] => None
                          | _ :: _ => Some (directive env)
                          end
    /\ (env = [] -> out = []).
Proof.
  intros Hnd Hlen Hw. destruct env as [|e0 env'].
  { exists []. repeat split; reflexivity. }
  remember (e0 :: env') as env eqn:Eenv.
  assert (Hne : keys env <> []) by (subst env; discriminate).
  rewrite (wsl_env_unfold env Hne).
  destruct (strip_flags_untouched (keys env)
              (set "WSLENV" (directive env) env))
    as (out & Hout & Hother); [exact Hnd|exact Hlen| |].
  { intros k Hk. apply get_in_keys, keys_set. now right. }
  exists out. split; [exact Hout|]. split; [|intros E; congruence].
  rewrite Hother.
  - now rewrite get_set, String.eqb_refl.
  - intros k Hk Hf. split.
    + intros <-. rewrite wslenv_not_flagged in Hf. discriminate.
    + intros E. apply (Hw k Hk Hf).
      now rewrite (bare_name_flagged k Hf).
Qed.

Lemma wsl_env_directive_witness :
  exists out,
    wsl_env [("AA", "1"); ("BB/p", "2"); ("WSLENV", ":ZZ/l ")] = Ok out
    /\ get "WSLENV" out = Some "AA:BB/p:WSLENV:ZZ/l".
Proof.
  destruct (wsl_env_directive
              [("AA", "1"); ("BB/p", "2"); ("WSLENV", ":ZZ/l ")])
    as (out & Hout & Hget & _).
  - repeat constructor; cbn [In]; intros H;
      repeat destruct H as [H|H]; try discriminate H; exact H.
  - intros k [<-|[<-|[<-|[]]]]; simpl; lia.
  - intros k [<-|[<-|[<-|[]]]] Hf; try discriminate Hf. discriminate.
  - exists out. split; [exact Hout|exact Hget].
Defined.

(** X10: when every key has two characters or more and no two entries
    meet under one name once the flags are removed, the names of the
    mapping returned are exactly the bare names of the keys supplied
    and, unless the mapping is empty, [WSLENV]; no other name is added,
    and no flagged key that was supplied is still a name of the result.
    (One suffix is removed, not more: the bare name of [AA/p/p] is
    [AA/p].) *)
Theorem wsl_env_names (env : dict) :
  NoDup (keys env) -> long_keys env -> no_name_clash env ->
  exists out,
    wsl_env env = Ok out
    /\ (forall n, In n (keys out)
                  <-> (env <> [] /\ n = "WSLENV")
                      \/ exists k, In k (keys env) /\ n = bare_name k)
    /\ (forall k, In k (keys env) -> is_flagged k = true ->
                  ~ In k (keys out)).
Proof.
  intros Hnd Hlen Hclash. destruct env as [|e0 env'].
  { exists []. split; [reflexivity|]. split.
    - intros n. split; [intros []|].
      intros [[H _]|(k & [] & _)]. now elim H.
    - intros k []. }
  remember (e0 :: env') as env eqn:Eenv.
  assert (Hne : keys env <> []) by (subst env; discriminate).
  assert (Hne' : env <> []) by (subst env; discriminate).
  clear Eenv e0 env'.
  destruct (wsl_env_clash_free env Hnd Hlen Hclash Hne)
    as (out & Hout & Hbare & Hother & Hgone).
  exists out. split; [exact Hout|]. split.
  2:{ intros k Hk Hf Hin. apply get_in_keys in Hin. apply Hin.
      now apply Hgone. }
  intros n.
  assert (Hfrom : forall k, In k (keys env) -> In (bare_name k) (keys out)).
  { intros k Hk. apply get_in_keys. rewrite (Hbare k Hk).
    apply get_in_keys, keys_set. now right. }
  rewrite <- get_in_keys. split.
  - intros Hn. destruct (string_dec n "WSLENV") as [E|Hnw];
      [left; now split|right].
    destruct (in_dec string_dec n (map bare_name (keys env))) as [Hb|Hnb].
    { apply in_map_iff in Hb. destruct Hb as (k & E & Hk). now exists k. }
    exfalso. destruct (in_dec string_dec n (keys env)) as [Hk|Hnk].
    + destruct (is_flagged n) eqn:Hf.
      * apply Hn. now apply Hgone.
      * apply Hnb. apply in_map_iff. exists n.
        split; [now apply bare_name_plain|exact Hk].
    + apply Hn. rewrite Hother.
      * rewrite get_set. destruct (String.eqb_spec "WSLENV" n); [congruence|].
        destruct (get n env) eqn:E; [|reflexivity].
        exfalso. apply Hnk, get_in_keys. congruence.
      * intros k Hk Hf. split; [intros ->; contradiction|].
        intros ->. apply Hnb. now apply in_map.
  - intros [[_ ->]|(k & Hk & ->)]; [|apply get_in_keys; now apply Hfrom].
    destruct (in_dec string_dec "WSLENV" (map bare_name (keys env)))
      as [Hb|Hnb].
    + apply in_map_iff in Hb. destruct Hb as (k & E & Hk).
      rewrite <- E. apply get_in_keys. now apply Hfrom.
    + rewrite Hother; [now rewrite get_set, String.eqb_refl|].
      intros k Hk Hf. split.
      * intros <-. rewrite wslenv_not_flagged in Hf. discriminate.
      * intros E. apply Hnb. rewrite E. now apply in_map.
Qed.

Lemma wsl_env_names_witness :
  exists out,
    wsl_env [("AA", "1"); ("BB/p", "C:\x")] = Ok out
    /\ (forall n, In n (keys out)
                  <-> ([("AA", "1"); ("BB/p", "C:\x")] <> [] /\ n = "WSLENV")
                      \/ exists k, In k (keys [("AA", "1"); ("BB/p", "C:\x")])
                                   /\ n = bare_name k)
    /\ (forall k, In k (keys [("AA", "1"); ("BB/p", "C:\x")]) ->
                  is_flagged k = true -> ~ In k (keys out)).
Proof.
  apply (wsl_env_names [("AA", "1"); ("BB/p", "C:\x")]).
  - repeat constructor; cbn [In]; intros H;
      repeat destruct H as [H|H]; try discriminate H; exact H.
  - intros k [<-|[<-|[]]]; simpl; lia.
  - split.
    + intros k [<-|[<-|[]]] Hf; [discriminate Hf|].
      intros [H|[H|[]]]; discriminate H.
    + intros k1 k2 [<-|[<-|[]]] [<-|[<-|[]]] H1 H2 _;
        first [reflexivity | discriminate H1 | discriminate H2].
Defined.

(** X11: a mapping that is not empty, whose keys have two characters or
    more and none of which carries a flag, comes back as it was, entries
    in their order, with the directive stored under [WSLENV] (in place
    if the key was there, at the end if it was not). *)
Theorem wsl_env_plain (env : dict) :
  keys env <> [] -> long_keys env ->
  (forall k, In k (keys env) -> is_flagged k = false) ->
  wsl_env env = Ok (set "WSLENV" (directive env) env).
Proof.
  intros Hne Hlen Hpl. rewrite (wsl_env_unfold env Hne).
  now apply strip_flags_plain.
Qed.

Lemma wsl_env_plain_witness :
  wsl_env [("PLAIN", "untranslated"); ("SPEC", "$file")]
  = Ok [("PLAIN", "untranslated"); ("SPEC", "$file");
        ("WSLENV", "PLAIN:SPEC")].
Proof.
  apply (wsl_env_plain [("PLAIN", "untranslated"); ("SPEC", "$file")]).
  - discriminate.
  - intros k [<-|[<-|[]]]; simpl; lia.
  - intros k [<-|[<-|[]]]; reflexivity.
Defined.


(** ** The build variables and the keyword arguments of [run] *)

Section VariableFacts.

Lemma unix_prefix_inj (a b : string) :
  "unix_" +++ a = "unix_" +++ b -> a = b.
Proof. cbn [append]. intros H. now injection H. Qed.

(** No path variable is the unix name of a path variable, so what the
    loop writes is never read back by it. *)
Lemma path_variables_apart (var var' : string) :
  In var path_variables -> In var' path_variables ->
  var <> "unix_" +++ var'.
Proof.
  assert (H : forallb (fun v => forallb (fun v' =>
                negb (String.eqb v ("unix_" +++ v'))) path_variables)
                path_variables = true) by reflexivity.
  intros Hv Hv' E.
  rewrite forallb_forall in H. specialize (H var Hv).
  rewrite forallb_forall in H. specialize (H var' Hv').
  apply negb_true_iff, String.eqb_neq in H. contradiction.
Qed.

Lemma mem_get (k : string) (d : dict) :
  mem k d = true <-> get k d <> None.
Proof. unfold mem. destruct (get k d); split; congruence. Qed.

Lemma add_unix_spec (order : list string) :
  forall d,
    (forall var var', In var order -> In var' order ->
                      var <> "unix_" +++ var') ->
    exists out,
      add_unix_variables order d = Ok out
      /\ (forall var v, In var order -> get var d = Some v ->
            exists p, wsl_path v = Ok p
                      /\ get ("unix_" +++ var) out = Some p)
      /\ (forall n, (forall var, In var order -> get var d <> None ->
                                 n <> "unix_" +++ var) ->
            get n out = get n d).
Proof.
  induction order as [|var rest IH]; intros d Hapart; cbn [add_unix_variables].
  - exists d. split; [reflexivity|]. split; [intros ? ? []|reflexivity].
  - assert (Hapart' : forall a b, In a rest -> In b rest ->
                                  a <> "unix_" +++ b).
    { intros a b Ha Hb. apply Hapart; now right. }
    unfold mem, getitem. destruct (get var d) as [v|] eqn:Hv.
    + cbn [bind]. destruct (wsl_path_total v) as (p & Hp & _).
      rewrite Hp. cbn [bind].
      set (d2 := set ("unix_" +++ var) p d).
      assert (Hread : forall a, In a (var :: rest) -> get a d2 = get a d).
      { intros a Ha. unfold d2. rewrite get_set.
        destruct (String.eqb_spec ("unix_" +++ var) a) as [E|_];
          [|reflexivity].
        exfalso. apply (Hapart a var Ha); [now left|now symmetry]. }
      destruct (IH d2 Hapart') as (out & Hout & Hadd & Hkeep).
      exists out. split; [exact Hout|]. split.
      * intros a va Ha Hva.
        destruct (in_dec string_dec a rest) as [Hr|Hnr].
        -- apply Hadd; [exact Hr|]. now rewrite Hread.
        -- destruct Ha as [<-|Ha]; [|contradiction].
           rewrite Hv in Hva. injection Hva as <-.
           exists p. split; [exact Hp|]. rewrite Hkeep.
           ++ unfold d2. now rewrite get_set, String.eqb_refl.
           ++ intros b Hb _ E. apply unix_prefix_inj in E. now subst b.
      * intros n Hn. rewrite Hkeep.
        -- unfold d2. rewrite get_set.
           destruct (String.eqb_spec ("unix_" +++ var) n) as [E|_];
             [|reflexivity].
           exfalso. apply (Hn var); [now left|congruence|now symmetry].
        -- intros b Hb Hgb. apply Hn; [now right|].
           rewrite <- Hread by now right. exact Hgb.
    + destruct (IH d Hapart') as (out & Hout & Hadd & Hkeep).
      exists out. split; [exact Hout|]. split.
      * intros a va [<-|Ha] Hva; [congruence|]. now apply Hadd.
      * intros n Hn. apply Hkeep. intros b Hb. apply Hn. now right.
Qed.

Lemma lookup_assign {A : Type} (k k' : string) (v : arg A) (d : kwdict A) :
  lookup k' (assign k v d) = if String.eqb k k' then Some v else lookup k' d.
Proof.
  induction d as [|[k0 v0] d IH]; cbn [assign lookup].
  - reflexivity.
  - destruct (String.eqb_spec k0 k) as [->|Hk]; cbn [lookup].
    + destruct (String.eqb k k'); reflexivity.
    + rewrite IH. destruct (String.eqb_spec k0 k') as [->|Hk'].
      * destruct (String.eqb_spec k k'); [congruence|reflexivity].
      * reflexivity.
Qed.

Lemma lookup_filter {A : Type} (k : string) (d : kwdict A) :
  lookup k (filter (fun kv => negb (is_dropped (fst kv))) d)
  = if is_dropped k then None else lookup k d.
Proof.
  induction d as [|[k0 v0] d IH]; cbn [filter lookup fst].
  - now destruct (is_dropped k).
  - destruct (is_dropped k0) eqn:E0; cbn [negb lookup].
    + rewrite IH. destruct (String.eqb_spec k0 k) as [->|Hk]; [|reflexivity].
      now rewrite E0.
    + rewrite IH. destruct (String.eqb_spec k0 k) as [->|Hk]; [|reflexivity].
      now rewrite E0.
Qed.

End VariableFacts.

(** X12: whatever the order in which the path variables are visited,
    the loop never raises.  Every path variable that is present gets a
    companion [unix_<name>] holding its value translated by [wsl_path],
    free of backslashes; every other variable, the path variables
    included, keeps the value it had. *)
Theorem unix_variables (order : list string) (variables : dict) :
  incl order path_variables ->
  exists out,
    add_unix_variables order variables = Ok out
    /\ (forall var v, In var order -> get var variables = Some v ->
          exists p, wsl_path v = Ok p
                    /\ contains backslash p = false
                    /\ get ("unix_" +++ var) out = Some p)
    /\ (forall n, (forall var, In var order -> get var variables <> None ->
                               n <> "unix_" +++ var) ->
          get n out = get n variables).
Proof.
  intros Hincl.
  destruct (add_unix_spec order variables) as (out & Hout & Hadd & Hkeep).
  { intros a b Ha Hb. apply path_variables_apart; now apply Hincl. }
  exists out. split; [exact Hout|]. split; [|exact Hkeep].
  intros var v Hvar Hv. destruct (Hadd var v Hvar Hv) as (p & Hp & Hget).
  exists p. split; [exact Hp|]. split; [|exact Hget].
  destruct (wsl_path_total v) as (q & Hq & Hposix).
  rewrite Hp in Hq. injection Hq as <-.
  unfold is_posix in Hposix. now destruct (contains backslash p).
Qed.

Lemma unix_variables_witness :
  exists out,
    add_unix_variables path_variables
      [("file", "C:\src\a.c"); ("platform", "windows")] = Ok out
    /\ get "unix_file" out = Some "/mnt/c/src/a.c"
    /\ get "file" out = Some "C:\src\a.c".
Proof.
  destruct (unix_variables path_variables
              [("file", "C:\src\a.c"); ("platform", "windows")]
              (incl_refl _)) as (out & Hout & _ & _).
  exists out. split; [exact Hout|].
  injection Hout as <-. split; reflexivity.
Defined.

(** X13: the order in which the set of path variables is visited does
    not matter: two runs of the loop over the same variables, each
    visiting the six names once, leave dictionaries that hold the same
    value under every name. *)
Theorem unix_variables_any_order (order1 order2 : list string)
  (variables : dict) :
  Permutation path_variables order1 ->
  Permutation path_variables order2 ->
  exists out1 out2,
    add_unix_variables order1 variables = Ok out1
    /\ add_unix_variables order2 variables = Ok out2
    /\ forall n, get n out1 = get n out2.
Proof.
  intros P1 P2.
  assert (I1 : forall x, In x order1 <-> In x path_variables).
  { intros x. split; [apply Permutation_in; now symmetry
                     |now apply Permutation_in]. }
  assert (I2 : forall x, In x order2 <-> In x path_variables).
  { intros x. split; [apply Permutation_in; now symmetry
                     |now apply Permutation_in]. }
  destruct (add_unix_spec order1 variables) as (out1 & H1 & Hadd1 & Hkeep1).
  { intros a b Ha Hb. apply path_variables_apart; now apply I1. }
  destruct (add_unix_spec order2 variables) as (out2 & H2 & Hadd2 & Hkeep2).
  { intros a b Ha Hb. apply path_variables_apart; now apply I2. }
  exists out1, out2. split; [exact H1|]. split; [exact H2|]. intros n.
  destruct (in_dec string_dec n
              (map (fun var => "unix_" +++ var)
                   (filter (fun var => mem var variables) path_variables)))
    as [Hin|Hnot].
  - apply in_map_iff in Hin. destruct Hin as (var & <- & Hvar).
    apply filter_In in Hvar. destruct Hvar as [Hvar Hmem].
    apply mem_get in Hmem.
    destruct (get var variables) as [v|] eqn:Hv; [|congruence].
    destruct (Hadd1 var v) as (p1 & Hp1 & ->); [now apply I1|exact Hv|].
    destruct (Hadd2 var v) as (p2 & Hp2 & ->); [now apply I2|exact Hv|].
    congruence.
  - assert (Hfree : forall var, In var path_variables ->
                                get var variables <> None ->
                                n <> "unix_" +++ var).
    { intros var Hvar Hg ->. apply Hnot. apply in_map, filter_In.
      split; [exact Hvar|now apply mem_get]. }
    rewrite Hkeep1, Hkeep2; [reflexivity| |].
    + intros var Hvar. apply Hfree. now apply I2.
    + intros var Hvar. apply Hfree. now apply I1.
Qed.

Lemma unix_variables_any_order_witness :
  exists out1 out2,
    add_unix_variables path_variables [("folder", "D:\w")] = Ok out1
    /\ add_unix_variables (rev path_variables) [("folder", "D:\w")] = Ok out2
    /\ forall n, get n out1 = get n out2.
Proof.
  apply (unix_variables_any_order path_variables (rev path_variables)).
  - apply Permutation_refl.
  - apply Permutation_rev.
Defined.

(** X14: when [run] gets as far as the build variables, the arguments
    it has built never hold [working_dir]; they hold [shell_cmd] (the
    command line of the external argument vector) only when [external]
    is set and [cmd] (the argument vector itself) is then left as the
    caller gave it; they hold [env] only when a non-empty [wsl_env] was
    given, and then it is what [wsl_env] returned.  Every other keyword
    argument is passed on as it was. *)
Theorem run_args_forwarded {A : Type} (list2cmdline : list string -> string)
  (cmd : command) (cwd : string) (env : option dict) (external : bool)
  (kwargs out : kwdict A) :
  run_args list2cmdline cmd cwd env external kwargs = Ok out ->
  lookup "working_dir" out = None
  /\ (forall k, is_dropped k = false -> k <> "cmd" ->
                lookup k out = lookup k kwargs)
  /\ (exists argv,
        wsl_cmd cmd cwd external = Ok argv
        /\ if external
           then lookup "shell_cmd" out = Some (ArgStr (list2cmdline argv))
                /\ lookup "cmd" out = lookup "cmd" kwargs
           else lookup "cmd" out = Some (ArgList argv)
                /\ lookup "shell_cmd" out = None)
  /\ match env with
     | Some e =>
         if truthy e
         then exists e', wsl_env e = Ok e'
                         /\ lookup "env" out = Some (ArgDict e')
         else lookup "env" out = None
     | None => lookup "env" out = None
     end.
Proof.
  unfold run_args.
  set (kept := filter (fun kv => negb (is_dropped (fst kv))) kwargs).
  assert (Hkept : forall k, lookup k kept
                            = if is_dropped k then None else lookup k kwargs)
    by (intros k; apply lookup_filter).
  destruct (wsl_cmd_shape cmd cwd external) as (p & _ & _ & Hargv).
  set (argv := launcher external
                 ++ (if nonempty cwd then ["cd"; p; ";"] else [])
                 ++ command_tokens cmd) in Hargv.
  set (base := if external
               then assign "shell_cmd" (ArgStr (list2cmdline argv)) kept
               else assign "cmd" (ArgList argv) kept).
  assert (Hbase : (if external
                   then argv0 <- wsl_cmd cmd cwd true ;;
                        Ok (assign "shell_cmd"
                                   (ArgStr (list2cmdline argv0)) kept)
                   else argv0 <- wsl_cmd cmd cwd false ;;
                        Ok (assign "cmd" (ArgList argv0) kept))
                  = Ok base).
  { unfold base. destruct external; rewrite Hargv; reflexivity. }
  rewrite Hbase. cbn [bind].
  assert (Hb_wd : lookup "working_dir" base = None).
  { unfold base. destruct external; rewrite lookup_assign, Hkept; reflexivity. }
  assert (Hb_env : lookup "env" base = None).
  { unfold base. destruct external; rewrite lookup_assign, Hkept; reflexivity. }
  assert (Hb_other : forall k, is_dropped k = false -> k <> "cmd" ->
                               lookup k base = lookup k kwargs).
  { intros k Hk Hc. unfold base. destruct external; rewrite lookup_assign.
    - destruct (String.eqb_spec "shell_cmd" k) as [<-|_]; [discriminate Hk|].
      now rewrite Hkept, Hk.
    - destruct (String.eqb_spec "cmd" k) as [E|_]; [congruence|].
      now rewrite Hkept, Hk. }
  assert (Hb_cmd : if external
                   then lookup "shell_cmd" base
                        = Some (ArgStr (list2cmdline argv))
                        /\ lookup "cmd" base = lookup "cmd" kwargs
                   else lookup "cmd" base = Some (ArgList argv)
                        /\ lookup "shell_cmd" base = None).
  { unfold base. destruct external; rewrite !lookup_assign, ?Hkept;
      split; reflexivity. }
  assert (Hfinal : forall e' k, k <> "env" ->
                     lookup k (assign "env" (ArgDict e') base) = lookup k base).
  { intros e' k Hk. rewrite lookup_assign.
    destruct (String.eqb_spec "env" k); [congruence|reflexivity]. }
  destruct env as [[|kv e]|].
  - intros H. injection H as <-. repeat split; try assumption.
    exists argv. split; [exact Hargv|exact Hb_cmd].
  - cbn [truthy].
    destruct (wsl_env (kv :: e)) as [e'|x] eqn:He; cbn [bind];
      [|intros H; discriminate H].
    intros H. injection H as <-. split; [|split; [|split]].
    + rewrite Hfinal by discriminate. exact Hb_wd.
    + intros k Hk Hc. rewrite Hfinal; [now apply Hb_other|].
      intros ->. discriminate Hk.
    + exists argv. split; [exact Hargv|].
      destruct external; rewrite !Hfinal by discriminate; exact Hb_cmd.
    + exists e'. split; [reflexivity|].
      now rewrite lookup_assign, String.eqb_refl.
  - intros H. injection H as <-. repeat split; try assumption.
    exists argv. split; [exact Hargv|exact Hb_cmd].
Qed.

Lemma run_args_forwarded_witness :
  lookup "working_dir"
    [("file_regex", @ArgStr unit "^(.+):"); ("cmd", ArgList ["wsl"; "make"])]
  = None.
Proof.
  exact (proj1 (run_args_forwarded (join " ") (CmdStr "make") "" None false
                  [("working_dir", ArgStr "C:\w");
                   ("file_regex", @ArgStr unit "^(.+):")]
                  [("file_regex", ArgStr "^(.+):");
                   ("cmd", ArgList ["wsl"; "make"])]
                  eq_refl)).
Defined.

(** X15: the only way [run] fails before it reaches the build variables
    is through [wsl_env]: without a mapping, or with an empty one, the
    arguments are built; with a non-empty mapping they are built exactly
    when [wsl_env] returns, and an exception it raises is the one that
    comes out. *)
Theorem run_args_raises {A : Type} (list2cmdline : list string -> string)
  (cmd : command) (cwd : string) (env : option dict) (external : bool)
  (kwargs : kwdict A) :
  match env with
  | Some e =>
      if truthy e
      then forall x,
          run_args list2cmdline cmd cwd env external kwargs = Raise x
          <-> wsl_env e = Raise x
      else exists out,
          run_args list2cmdline cmd cwd env external kwargs = Ok out
  | None =>
      exists out, run_args list2cmdline cmd cwd env external kwargs = Ok out
  end.
Proof.
  unfold run_args.
  destruct (wsl_cmd_shape cmd cwd external) as (p & _ & _ & Hargv).
  destruct env as [[|kv e]|].
  - destruct external; rewrite Hargv; cbn [bind]; eexists; reflexivity.
  - cbn [truthy]. intros x.
    destruct external; rewrite Hargv; cbn [bind];
      destruct (wsl_env (kv :: e)) as [e'|y]; cbn [bind];
      split; congruence.
  - destruct external; rewrite Hargv; cbn [bind]; eexists; reflexivity.
Qed.

(** ** Clashing names and space-free tokens *)

Section ClashFacts.

(** A flagged entry reaches its bare name whatever else the mapping
    holds, as long as no other flagged key interferes with it. *)
Lemma strip_flags_wins (ks : list string) :
  forall d k v,
    NoDup ks ->
    (forall k', In k' ks -> 2 <= String.length k') ->
    (forall k', In k' ks -> get k' d <> None) ->
    In k ks -> is_flagged k = true -> get k d = Some v ->
    (forall k', In k' ks -> is_flagged k' = true -> k' <> k ->
                drop_last 2 k' <> drop_last 2 k
                /\ drop_last 2 k' <> k
                /\ k' <> drop_last 2 k) ->
    exists out, strip_flags ks d = Ok out /\ get (drop_last 2 k) out = Some v.
Proof.
  induction ks as [|key rest IH];
    intros d k v Hnd Hlen Hin Hk Hf Hv Hsep; [destruct Hk|].
  cbn [strip_flags]. inversion Hnd as [|? ? Hnot Hnd']; subst.
  rewrite has_flag_long by (apply Hlen; now left). cbn [bind].
  assert (Hin2 : forall w, get key d = Some w ->
                   forall k', In k' rest ->
                     get k' (set (drop_last 2 key) w (remove key d)) <> None).
  { intros w _ k' Hk'. rewrite get_set.
    destruct (String.eqb (drop_last 2 key) k'); [discriminate|].
    rewrite get_remove_other by (intros ->; contradiction).
    apply Hin. now right. }
  destruct (string_dec key k) as [->|Hne].
  - rewrite Hf. destruct (pop_present k d) as (w & Hw & ->);
      [apply Hin; now left|]. cbn [bind].
    rewrite Hv in Hw. injection Hw as <-.
    destruct (strip_flags_untouched rest
                (set (drop_last 2 k) v (remove k d)))
      as (out & Hout & Hother);
      [exact Hnd'|intros; apply Hlen; now right|now apply Hin2|].
    exists out. split; [exact Hout|]. rewrite Hother.
    + now rewrite get_set, String.eqb_refl.
    + intros k' Hk' Hf'.
      destruct (Hsep k') as (H1 & H2 & H3);
        [now right|exact Hf'|intros ->; contradiction|].
      split; congruence.
  - destruct Hk as [E|Hk]; [contradiction|].
    assert (Hsep' : forall k', In k' rest -> is_flagged k' = true -> k' <> k ->
                      drop_last 2 k' <> drop_last 2 k
                      /\ drop_last 2 k' <> k /\ k' <> drop_last 2 k).
    { intros k' Hk'. apply Hsep. now right. }
    destruct (is_flagged key) eqn:Hkey.
    + destruct (pop_present key d) as (w & Hw & ->);
        [apply Hin; now left|]. cbn [bind].
      apply IH; try assumption.
      * intros; apply Hlen; now right.
      * now apply (Hin2 w).
      * destruct (Hsep key) as (H1 & H2 & H3); [now left|exact Hkey|exact Hne|].
        rewrite get_set.
        destruct (String.eqb_spec (drop_last 2 key) k); [contradiction|].
        rewrite get_remove_other by congruence. exact Hv.
    + apply IH; try assumption.
      * intros; apply Hlen; now right.
      * intros; apply Hin; now right.
Qed.

Lemma contains_lstrip (c : ascii) (p : ascii -> bool) (s : string) :
  contains c s = false -> contains c (lstrip p s) = false.
Proof.
  induction s as [|a s IH]; [reflexivity|]. cbn [lstrip].
  destruct (p a); [|trivial]. cbn [contains]. intros H.
  apply orb_false_iff in H. now apply IH.
Qed.

Lemma contains_rstrip (c : ascii) (p : ascii -> bool) (s : string) :
  contains c s = false -> contains c (rstrip p s) = false.
Proof.
  induction s as [|a s IH]; [reflexivity|]. cbn [contains rstrip].
  intros H. apply orb_false_iff in H. destruct H as [Ha Hs].
  specialize (IH Hs). destruct (rstrip p s) as [|b r].
  - destruct (p a); [reflexivity|]. cbn [contains]. now rewrite Ha.
  - cbn [contains] in IH |- *. now rewrite Ha, IH.
Qed.

Lemma split_first_no_space (s : string) :
  contains " " (fst (split_first s)) = false
  /\ Forall (fun t => contains " " t = false) (snd (split_first s)).
Proof.
  induction s as [|c s [IHt IHts]]; cbn [split_first].
  - split; [reflexivity|constructor].
  - destruct (split_first s) as [t ts]. cbn [fst snd] in IHt, IHts.
    destruct (Ascii.eqb c " ") eqn:E; cbn [fst snd].
    + split; [reflexivity|now constructor].
    + split; [|exact IHts]. cbn [contains]. now rewrite E, IHt.
Qed.

End ClashFacts.

(** X16: a flagged entry is never lost to a plain one.  If the keys have
    two characters or more and no other flagged key shares the bare name
    of [k], is that bare name, or has [k] as its bare name, then the
    value of [k] is found under its bare name in the result, even when
    the mapping also holds an entry under that bare name. *)
Theorem wsl_env_flag_wins (env : dict) (k v : string) :
  NoDup (keys env) -> long_keys env ->
  In (k, v) env -> is_flagged k = true ->
  (forall k', In k' (keys env) -> is_flagged k' = true -> k' <> k ->
              bare_name k' <> bare_name k
              /\ bare_name k' <> k
              /\ k' <> bare_name k) ->
  exists out, wsl_env env = Ok out /\ get (bare_name k) out = Some v.
Proof.
  intros Hnd Hlen Hin Hf Hsep.
  assert (Hk : In k (keys env)) by (apply (in_map fst) in Hin; exact Hin).
  assert (Hne : keys env <> []) by (intros E; rewrite E in Hk; destruct Hk).
  rewrite (wsl_env_unfold env Hne), (bare_name_flagged k Hf).
  apply strip_flags_wins; try assumption.
  - intros k' Hk'. apply get_in_keys, keys_set. now right.
  - rewrite get_set. destruct (String.eqb_spec "WSLENV" k) as [E|_].
    + rewrite <- E, wslenv_not_flagged in Hf. discriminate.
    + now apply get_entry.
  - intros k' Hk' Hf' Hd. destruct (Hsep k' Hk' Hf' Hd) as (H1 & H2 & H3).
    rewrite (bare_name_flagged k' Hf'), (bare_name_flagged k Hf) in *.
    now repeat split.
Qed.

Lemma wsl_env_flag_wins_witness :
  exists out,
    wsl_env [("BB", "y"); ("BB/p", "x")] = Ok out
    /\ get (bare_name "BB/p") out = Some "x".
Proof.
  apply (wsl_env_flag_wins [("BB", "y"); ("BB/p", "x")] "BB/p" "x").
  - repeat constructor; cbn [In]; intros H;
      repeat destruct H as [H|H]; try discriminate H; exact H.
  - intros k [<-|[<-|[]]]; simpl; lia.
  - right. now left.
  - reflexivity.
  - intros k' [<-|[<-|[]]] Hf' Hd; [discriminate Hf'|now elim Hd].
Defined.

(** X17: a command given as a string cannot carry an argument with a
    space in it: whatever the string, the tokens that follow the
    launcher and the working-directory segment in the result of
    [wsl_cmd] have no space. *)
Theorem wsl_cmd_string_no_space (s cwd : string) (external : bool) :
  exists prefix tokens,
    wsl_cmd (CmdList []) cwd external = Ok prefix
    /\ wsl_cmd (CmdStr s) cwd external = Ok (prefix ++ tokens)
    /\ Forall (fun t => contains " " t = false) tokens.
Proof.
  destruct (wsl_cmd_list [] cwd external) as (p & Hp & Hl).
  destruct (wsl_cmd_str s cwd external) as (p' & Hp' & Hs).
  rewrite Hp in Hp'. injection Hp' as <-. rewrite app_nil_r in Hl.
  exists (launcher external ++ cd_segment cwd p), (map strip (split_space s)).
  split; [exact Hl|]. split; [exact Hs|].
  apply Forall_forall. intros t Ht.
  apply in_map_iff in Ht. destruct Ht as (u & <- & Hu).
  unfold strip, strip_with. apply contains_rstrip, contains_lstrip.
  destruct (split_first_no_space s) as [H1 H2].
  unfold split_space in Hu. destruct (split_first s) as [t0 ts].
  cbn [fst snd] in H1, H2. destruct Hu as [<-|Hu]; [exact H1|].
  revert u Hu. now apply Forall_forall.
Qed.


(** ** The tokens of a string command *)

Section TrimFacts.

Lemma all_space_app (a b : string) :
  all_space (a +++ b) = all_space a && all_space b.
Proof.
  induction a as [|c a IH]; cbn [append all_space]; [reflexivity|].
  now rewrite IH, andb_assoc.
Qed.

(** What [lstrip] drops is a run of white space at the start. *)
Lemma lstrip_split (s : string) :
  exists l, s = l +++ lstrip isspace s /\ all_space l = true.
Proof.
  induction s as [|c s (l & E & Hl)]; [now exists ""|]. cbn [lstrip].
  destruct (isspace c) eqn:Hc.
  - exists (String c l). cbn [append all_space].
    rewrite Hc, Hl. split; [now rewrite <- E|reflexivity].
  - now exists "".
Qed.

(** What [rstrip] drops is a run of white space at the end. *)
Lemma rstrip_split (s : string) :
  exists r, s = rstrip isspace s +++ r /\ all_space r = true.
Proof.
  induction s as [|c s (r & E & Hr)]; [now exists ""|]. cbn [rstrip].
  destruct (rstrip isspace s) as [|d x].
  - cbn [append] in E. subst s. destruct (isspace c) eqn:Hc.
    + exists (String c r). cbn [append all_space]. now rewrite Hc, Hr.
    + now exists r.
  - exists r. cbn [append] in E |- *. split; [now rewrite <- E|exact Hr].
Qed.

Lemma strip_trimmed (s : string) : trimmed_of s (strip s).
Proof.
  split; [apply strip_stripped|].
  destruct (lstrip_split s) as (l & El & Hl).
  destruct (rstrip_split (lstrip isspace s)) as (r & Er & Hr).
  exists l, r. split; [|now split].
  unfold strip, strip_with. now rewrite <- Er.
Qed.

Lemma map_strip_trimmed (raw : list string) :
  Forall2 trimmed_of raw (map strip raw).
Proof.
  induction raw as [|t raw IH]; cbn [map]; constructor;
    [apply strip_trimmed|exact IH].
Qed.

Lemma split_space_pieces (s : string) : pieces_of s (split_space s).
Proof.
  split; [|split].
  - unfold split_space. destruct (split_first s). discriminate.
  - apply join_split_space.
  - destruct (split_first_no_space s) as [H1 H2]. unfold split_space.
    destruct (split_first s) as [t ts]. now constructor.
Qed.

End TrimFacts.

(** C10: a command given as one string is cut at every single space
    ([raw_a] are the pieces of [a]: none has a space and joined by
    single spaces they give [a] back) and each piece is stripped of the
    white space around it (each token of [ta] is its piece without the
    runs of white space at its two ends).  Two spaces in a row and a
    space at the end each leave an empty token in the argument vector,
    and the empty string leaves exactly one empty token after the
    prefix.  [prefix] is what [wsl_cmd] builds before the command: the
    launcher and the working-directory segment. *)
Theorem wsl_cmd_string_tokens (a b cwd : string) (external : bool) :
  exists prefix raw_a raw_b ta tb,
    wsl_cmd (CmdList []) cwd external = Ok prefix
    /\ (wsl_cmd (CmdStr a) cwd external = Ok (prefix ++ ta)
        /\ pieces_of a raw_a /\ Forall2 trimmed_of raw_a ta)
    /\ (wsl_cmd (CmdStr b) cwd external = Ok (prefix ++ tb)
        /\ pieces_of b raw_b /\ Forall2 trimmed_of raw_b tb)
    /\ wsl_cmd (CmdStr (a +++ "  " +++ b)) cwd external
       = Ok (prefix ++ ta ++ [""] ++ tb)
    /\ wsl_cmd (CmdStr (a +++ " ")) cwd external
       = Ok (prefix ++ ta ++ [""])
    /\ wsl_cmd (CmdStr "") cwd external = Ok (prefix ++ [""]).
Proof.
  destruct (wsl_cmd_list [] cwd external) as (p & Hp & Hl).
  rewrite app_nil_r in Hl.
  assert (Hstr : forall s, wsl_cmd (CmdStr s) cwd external
                           = Ok ((launcher external ++ cd_segment cwd p)
                                   ++ map strip (split_space s))).
  { intros s. destruct (wsl_cmd_str s cwd external) as (p' & Hp' & Hs).
    rewrite Hp in Hp'. injection Hp' as <-. exact Hs. }
  exists (launcher external ++ cd_segment cwd p),
         (split_space a), (split_space b),
         (map strip (split_space a)), (map strip (split_space b)).
  split; [exact Hl|]. split; [|split; [|split; [|split]]].
  - split; [apply Hstr|]. split;
      [apply split_space_pieces|apply map_strip_trimmed].
  - split; [apply Hstr|]. split;
      [apply split_space_pieces|apply map_strip_trimmed].
  - rewrite Hstr, split_space_two_spaces, !map_app. reflexivity.
  - rewrite Hstr, split_space_trailing_space, map_app. reflexivity.
  - rewrite Hstr. reflexivity.
Qed.
